(** * Cryptocurrency price API: cache, rate limiter and request handlers

    A shallow embedding of [api/app.js]: the in-memory cache, the sliding
    window rate limiter, the two upstream fetch functions and the two Express
    handlers [GET /price/:id] and [GET /prices/:ids], followed by the
    properties of the specification that concern them.

    Conventions of the embedding.
    - [Date.now()] is an integer number of milliseconds: [Z].
    - The two process-wide [Map]s ([cache], [rateLimiter]) are [gmap]s held in
      a [World], threaded through a state-and-exception monad [M].
    - The payload of the provider's price response is a JavaScript value
      [PriceData]: [null]/[undefined], or a value with own properties and a
      prototype chain.  Reading [data[id]] follows the chain, so an
      identifier such as [constructor] finds a member every object inherits.
    - The plain objects the code fills ([result] of the bulk fetch,
      [cachedResults]) are [gmap]s of their own properties; assigning the key
      [__proto__] on them adds no property ([object_set]).
    - JSON numbers are rationals ([Q]); prices are only passed through and
      compared with zero, never computed on.
    - Strings are byte strings; [toUpperCase] and [trim] act on ASCII.
    - The upstream provider is an oracle [Upstream] answering each outbound
      call with a latency and either a payload or an axios error.  The clock
      stands still during synchronous code and advances across each [await].
    - One request is run at a time; interleaving of other requests at the
      [await] points is not modelled. *)

From Stdlib Require Import ZArith QArith Ascii String List Sorted Lia.
From stdpp Require Import base gmap strings list fin_maps pretty.

Local Open Scope string_scope.
Local Open Scope Z_scope.

(** ** Constants *)

Definition CACHE_DURATION : Z := 5 * 60 * 1000.
Definition RATE_LIMIT_WINDOW : Z := 60 * 1000.
Definition MAX_REQUESTS_PER_MINUTE : nat := 50.

(** ** Data model *)

(** The object built by the fetch functions: [{name, symbol, price}].
    [price] is [priceResponse.data[id].usd], which is [undefined] ([None])
    when the provider's entry has no [usd] field. *)
Record PriceRecord := mkPriceRecord {
  name : string;
  symbol : string;
  price : option Q
}.

(** A value of the [cache] map: [{data, timestamp}]. *)
Record CacheEntry := mkCacheEntry {
  data : PriceRecord;
  timestamp : Z
}.

(** One entry of the provider's "simple price" response, [{usd: number}]. *)
Record PriceEntry := mkPriceEntry { usd : option Q }.

(** A value found under a key of the price payload: an entry object, or any
    other value (a function, a number, a string, ...), of which the code only
    sees whether it is truthy; reading [.usd] of such a value gives
    [undefined]. *)
Inductive JsValue :=
| JsEntry (e : PriceEntry)
| JsOther (truthy : bool).

(** [priceResponse.data]: [null] or [undefined] ([NoData]), or a value with
    its own properties and the members reachable along its prototype chain. *)
Inductive PriceData :=
| NoData
| Data (own : gmap string JsValue) (prototype_chain : string -> option JsValue).

(** The provider's "coin info" payload.  A payload without a string
    [symbol] makes [symbol.toUpperCase()] raise a [TypeError]. *)
Record CoinInfo := mkCoinInfo {
  info_name : string;
  info_symbol : option string
}.

(** A thrown JavaScript error, as far as the code inspects it:
    [error.message], [error.response.status] and [error.code]. *)
Record JsError := mkJsError {
  message : string;
  response_status : option Z;
  code : option string
}.

(** [new Error(msg)] *)
Definition new_Error (msg : string) : JsError :=
  {| message := msg; response_status := None; code := None |}.

Definition TypeError (msg : string) : JsError := new_Error msg.

(** Outbound calls, recorded in the order they are issued. *)
Inductive UpstreamCall :=
| SimplePrice (ids : string)
| CoinInfoCall (id : string).

(** What the provider answers to one call. *)
Record Reply (A : Type) := mkReply {
  elapsed : Z;
  outcome : JsError + A
}.
Arguments mkReply {A} _ _.
Arguments elapsed {A} _.
Arguments outcome {A} _.

Record Upstream := mkUpstream {
  simple_price : string -> Reply PriceData;
  coins : string -> Reply CoinInfo
}.

(** The process state together with the clock and the trace of outbound
    calls. *)
Record World := mkWorld {
  cache : gmap string CacheEntry;
  rateLimiter : gmap string (list Z);
  clock : Z;
  calls : list UpstreamCall
}.

Definition set_cache (c : gmap string CacheEntry) (w : World) : World :=
  {| cache := c; rateLimiter := rateLimiter w; clock := clock w; calls := calls w |}.
Definition set_rateLimiter (r : gmap string (list Z)) (w : World) : World :=
  {| cache := cache w; rateLimiter := r; clock := clock w; calls := calls w |}.
Definition set_clock (t : Z) (w : World) : World :=
  {| cache := cache w; rateLimiter := rateLimiter w; clock := t; calls := calls w |}.
Definition add_call (c : UpstreamCall) (w : World) : World :=
  {| cache := cache w; rateLimiter := rateLimiter w; clock := clock w;
     calls := (calls w ++ [c])%list |}.

(** The state right after the server starts, at time [t]. *)
Definition initial_world (t : Z) : World :=
  {| cache := ∅; rateLimiter := ∅; clock := t; calls := [] |}.

(** ** The state-and-exception monad *)

Inductive Outcome (A : Type) :=
| Ret (a : A)
| Throw (e : JsError).
Arguments Ret {A} _.
Arguments Throw {A} _.

Definition M (A : Type) : Type := World -> Outcome A * World.

#[global] Instance M_ret : MRet M := λ A a w, (Ret a, w).
#[global] Instance M_bind : MBind M := λ A B f m w,
  match m w with
  | (Ret a, w') => f a w'
  | (Throw e, w') => (Throw e, w')
  end.

Definition throw {A} (e : JsError) : M A := λ w, (Throw e, w).

(** [try { m } catch (error) { h error }] *)
Definition try_catch {A} (m : M A) (h : JsError -> M A) : M A := λ w,
  match m w with
  | (Ret a, w') => (Ret a, w')
  | (Throw e, w') => h e w'
  end.

(** [Date.now()] *)
Definition Date_now : M Z := λ w, (Ret (clock w), w).

(** [await new Promise(resolve => setTimeout(resolve, ms))] *)
Definition sleep (ms : Z) : M unit := λ w, (Ret tt, set_clock (clock w + ms) w).

(** ** Strings *)

Definition upper_ascii (c : ascii) : ascii :=
  let n := nat_of_ascii c in
  if ((97 <=? n)%nat && (n <=? 122)%nat)%bool then ascii_of_nat (n - 32) else c.

Fixpoint toUpperCase (s : string) : string :=
  match s with
  | EmptyString => EmptyString
  | String c s' => String (upper_ascii c) (toUpperCase s')
  end.

Definition is_space (c : ascii) : bool :=
  let n := nat_of_ascii c in
  ((n =? 32)%nat || ((9 <=? n)%nat && (n <=? 13)%nat))%bool.

Fixpoint trimStart (s : string) : string :=
  match s with
  | EmptyString => EmptyString
  | String c s' => if is_space c then trimStart s' else s
  end.

Fixpoint trimEnd (s : string) : string :=
  match s with
  | EmptyString => EmptyString
  | String c s' =>
      match trimEnd s' with
      | EmptyString => if is_space c then EmptyString else String c EmptyString
      | t => String c t
      end
  end.

Definition trim (s : string) : string := trimEnd (trimStart s).

(** [s.split(sep)] for a one-character separator. *)
Fixpoint split (sep : ascii) (s : string) : list string :=
  match s with
  | EmptyString => [EmptyString]
  | String c s' =>
      if Ascii.eqb c sep then EmptyString :: split sep s'
      else match split sep s' with
           | [] => [String c EmptyString]
           | w :: ws => String c w :: ws
           end
  end.

(** [xs.join(sep)] *)
Fixpoint join (sep : string) (xs : list string) : string :=
  match xs with
  | [] => EmptyString
  | [x] => x
  | x :: rest => String.append x (String.append sep (join sep rest))
  end.

(** ** JavaScript objects *)

(** The property names of [Object.prototype]. *)
Definition Object_prototype_names : list string :=
  ["constructor"; "__defineGetter__"; "__defineSetter__"; "hasOwnProperty";
   "__lookupGetter__"; "__lookupSetter__"; "isPrototypeOf"; "propertyIsEnumerable";
   "toString"; "valueOf"; "__proto__"; "toLocaleString"].

(** The names of the methods of [String.prototype] (Node 18); its [length]
    is hidden by the [length] every string has of its own. *)
Definition String_prototype_names : list string :=
  ["constructor"; "anchor"; "at"; "big"; "blink"; "bold"; "charAt";
   "charCodeAt"; "codePointAt"; "concat"; "endsWith"; "fontcolor"; "fontsize";
   "fixed"; "includes"; "indexOf"; "italics"; "lastIndexOf"; "link";
   "localeCompare"; "match"; "matchAll"; "normalize"; "padEnd"; "padStart";
   "repeat"; "replace"; "replaceAll"; "search"; "slice"; "small"; "split";
   "strike"; "sub"; "substr"; "substring"; "sup"; "startsWith"; "toString";
   "trim"; "trimStart"; "trimLeft"; "trimEnd"; "trimRight";
   "toLocaleLowerCase"; "toLocaleUpperCase"; "toLowerCase"; "toUpperCase";
   "valueOf"].

(** A prototype chain whose members, all functions or objects, are the given
    names. *)
Definition chain_of (names : list string) (key : string) : option JsValue :=
  if existsb (String.eqb key) names then Some (JsOther true) else None.

(** The payload [JSON.parse] builds from a JSON object: its members are own
    properties, and its prototype is [Object.prototype]. *)
Definition parsed_object (members : gmap string JsValue) : PriceData :=
  Data members (chain_of Object_prototype_names).

(** The payload axios hands over when the body is not JSON: the body as a
    string, whose own properties are [length] and its character indices. *)
Definition unparsed_text (body : string) : PriceData :=
  Data (<["length" := JsOther (negb (String.eqb body ""))]>
          (list_to_map ((λ i : nat, (pretty i, JsOther true))
                          <$> seq 0 (String.length body))))
       (chain_of (String_prototype_names ++ Object_prototype_names)).

(** The own properties of a payload. *)
Definition own_properties (d : PriceData) : gmap string JsValue :=
  match d with
  | NoData => ∅
  | Data own _ => own
  end.


(** What [d[key]] finds on a payload that is not [null]: the own property,
    else the inherited member, else [undefined]. *)
Definition member (d : PriceData) (key : string) : option JsValue :=
  match d with
  | NoData => None
  | Data own chain =>
      match own !! key with
      | Some v => Some v
      | None => chain key
      end
  end.

(** Truthiness of a looked-up value ([undefined] is falsy, objects are
    truthy). *)
Definition is_truthy (found : option JsValue) : bool :=
  match found with
  | Some (JsEntry _) => true
  | Some (JsOther b) => b
  | None => false
  end.

(** [found.usd] for a truthy [found]. *)
Definition usd_of (found : option JsValue) : option Q :=
  match found with
  | Some (JsEntry e) => usd e
  | _ => None
  end.

(** [obj[key] = v] on a plain object, [v] an object: the own property is
    added or replaced, except under the key [__proto__], which reaches the
    accessor inherited from [Object.prototype]: the prototype of [obj] is
    replaced and no property is added. *)
Definition object_set {V} (key : string) (v : V) (obj : gmap string V) : gmap string V :=
  if String.eqb key "__proto__" then obj else <[key := v]> obj.

(** ** Rate limiter *)

Definition rateLimiter_has (ip : string) : M bool := λ w,
  (Ret (bool_decide (is_Some (rateLimiter w !! ip))), w).

Definition rateLimiter_set (ip : string) (l : list Z) : M unit := λ w,
  (Ret tt, set_rateLimiter (<[ip := l]> (rateLimiter w)) w).

(** [rateLimiter.get(ip)]; calling [.filter] on [undefined] would raise. *)
Definition rateLimiter_get (ip : string) : M (list Z) := λ w,
  match rateLimiter w !! ip with
  | Some l => (Ret l, w)
  | None => (Throw (TypeError "Cannot read properties of undefined"), w)
  end.

Definition checkRateLimit (ip : string) : M bool :=
  now ← Date_now;
  let windowStart := now - RATE_LIMIT_WINDOW in
  has ← rateLimiter_has ip;
  (if negb has then rateLimiter_set ip [] else mret tt) ;;
  requests ← rateLimiter_get ip;
  let recentRequests := filter (λ time, windowStart < time) requests in
  if (MAX_REQUESTS_PER_MINUTE <=? length recentRequests)%nat then mret false
  else
    rateLimiter_set ip (recentRequests ++ [now])%list ;;
    mret true.

(** ** Cache *)

Definition getCachedData (id : string) : M (option PriceRecord) := λ w,
  match cache w !! id with
  | Some cached =>
      if clock w - timestamp cached <? CACHE_DURATION
      then (Ret (Some (data cached)), w)
      else (Ret None, w)
  | None => (Ret None, w)
  end.

Definition setCachedData (id : string) (d : PriceRecord) : M unit := λ w,
  (Ret tt, set_cache (<[id := {| data := d; timestamp := clock w |}]> (cache w)) w).

(** ** Upstream client *)

Definition MSG_NOT_FOUND : string := "Cryptocurrency not found".
Definition MSG_UPSTREAM_RATE : string := "Rate limit exceeded. Please try again later.".
Definition MSG_TIMEOUT : string := "Request timeout".

(** [xs.forEach(x => ...)] where the callback updates local variables:
    the locals are the accumulator. *)
Fixpoint foldM {A B} (f : B -> A -> M B) (acc : B) (xs : list A) : M B :=
  match xs with
  | [] => mret acc
  | x :: rest => acc' ← f acc x; foldM f acc' rest
  end.

(** Every promise of the list is run to completion from the same instant;
    the calls are issued in list order. *)
Fixpoint settle_all {A} (t0 : Z) (ps : list (M A)) (w : World)
  : list (Outcome A * Z) * World :=
  match ps with
  | [] => ([], w)
  | p :: rest =>
      let '(r, w1) := p (set_clock t0 w) in
      let '(rs, w2) := settle_all t0 rest w1 in
      ((r, clock w1) :: rs, w2)
  end.

Fixpoint first_rejection {A} (rs : list (Outcome A * Z)) : option (JsError * Z) :=
  match rs with
  | [] => None
  | (Ret _, _) :: rest => first_rejection rest
  | (Throw e, t) :: rest =>
      match first_rejection rest with
      | Some (e', t') => if t' <? t then Some (e', t') else Some (e, t)
      | None => Some (e, t)
      end
  end.

Fixpoint fulfilled {A} (rs : list (Outcome A * Z)) : list A :=
  match rs with
  | [] => []
  | (Ret a, _) :: rest => a :: fulfilled rest
  | (Throw _, _) :: rest => fulfilled rest
  end.

(** [await Promise.all(ps)]: rejects with the earliest rejection, otherwise
    resolves, once the slowest promise has, with the values in list order. *)
Definition promise_all {A} (ps : list (M A)) : M (list A) := λ w,
  let t0 := clock w in
  let '(rs, w') := settle_all t0 ps w in
  match first_rejection rs with
  | Some (e, t) => (Throw e, set_clock t w')
  | None => (Ret (fulfilled rs), set_clock (foldr Z.max t0 (map snd rs)) w')
  end.

(** What the per-identifier closure of the bulk fetch returns:
    [{id, name, symbol}]. *)
Record InfoResult := mkInfoResult {
  ir_id : string;
  ir_name : string;
  ir_symbol : string
}.

Section UpstreamClient.

Variable up : Upstream.

(** [await axios.get(".../simple/price", {params: {ids, ...}})] *)
Definition axios_get_price (ids : string) : M PriceData := λ w,
  let r := simple_price up ids in
  let w' := set_clock (clock w + elapsed r) (add_call (SimplePrice ids) w) in
  match outcome r with
  | inl e => (Throw e, w')
  | inr d => (Ret d, w')
  end.

(** [await axios.get(".../coins/" + id, ...)] *)
Definition axios_get_info (id : string) : M CoinInfo := λ w,
  let r := coins up id in
  let w' := set_clock (clock w + elapsed r) (add_call (CoinInfoCall id) w) in
  match outcome r with
  | inl e => (Throw e, w')
  | inr d => (Ret d, w')
  end.

(** [priceResponse.data[key]]; reading a property of [null] raises. *)
Definition data_get (d : PriceData) (key : string) : M (option JsValue) :=
  match d with
  | NoData => throw (TypeError "Cannot read properties of null")
  | Data _ _ => mret (member d key)
  end.

(** [data.symbol.toUpperCase()] *)
Definition symbol_toUpperCase (i : CoinInfo) : M string :=
  match info_symbol i with
  | Some s => mret (toUpperCase s)
  | None => throw (TypeError "Cannot read properties of undefined (reading 'toUpperCase')")
  end.

(** The [catch] block of [getCryptocurrencyData]. *)
Definition getCryptocurrencyData_catch (error : JsError) : M PriceRecord :=
  match response_status error with
  | Some st =>
      if st =? 404 then throw (new_Error MSG_NOT_FOUND)
      else if st =? 429 then throw (new_Error MSG_UPSTREAM_RATE)
      else mret tt
  | None => mret tt
  end ;;
  (if bool_decide (code error = Some "ECONNABORTED")
   then throw (new_Error MSG_TIMEOUT) else mret tt) ;;
  throw error.

Definition getCryptocurrencyData (id : string) : M PriceRecord :=
  try_catch
    (priceResponse ← axios_get_price id;
     found ← data_get priceResponse id;
     if negb (is_truthy found) then throw (new_Error MSG_NOT_FOUND)
     else
       sleep 200 ;;
       infoResponse ← axios_get_info id;
       sym ← symbol_toUpperCase infoResponse;
       mret {| name := info_name infoResponse;
               symbol := sym;
               price := usd_of found |})
    getCryptocurrencyData_catch.

(** The closure mapped over [ids] in the bulk fetch. *)
Definition fetchInfo (id : string) : M InfoResult :=
  try_catch
    (response ← axios_get_info id;
     sym ← symbol_toUpperCase response;
     mret {| ir_id := id; ir_name := info_name response; ir_symbol := sym |})
    (λ error,
       mret {| ir_id := id; ir_name := id; ir_symbol := toUpperCase id |}).

(** The [forEach] that combines price and info data into [result]. *)
Definition combine_results (priceResponse : PriceData)
    (infoResults : list InfoResult) : M (gmap string PriceRecord) :=
  foldM (λ (result : gmap string PriceRecord) info,
           found ← data_get priceResponse (ir_id info);
           if is_truthy found then
             mret (object_set (ir_id info)
                     {| name := ir_name info;
                        symbol := ir_symbol info;
                        price := usd_of found |} result)
           else mret result) ∅ infoResults.

Definition getMultipleCryptocurrencyData (ids : list string)
  : M (gmap string PriceRecord) :=
  try_catch
    (let idsString := join "," ids in
     priceResponse ← axios_get_price idsString;
     sleep 300 ;;
     infoResults ← promise_all (map fetchInfo ids);
     combine_results priceResponse infoResults)
    (λ error, throw error).

(** ** Request handlers *)

Inductive Body :=
| RecordBody (d : PriceRecord)
| MapBody (m : gmap string PriceRecord)
| ErrorBody (err msg : string).

Record Response := mkResponse {
  status : Z;
  body : Body
}.

Definition local_rate_limit_response : Response :=
  {| status := 429;
     body := ErrorBody "Rate limit exceeded" "Too many requests. Please try again later." |}.
Definition not_found_response : Response :=
  {| status := 404;
     body := ErrorBody "Cryptocurrency not found"
                       "The specified cryptocurrency ID does not exist" |}.
Definition upstream_rate_limit_response : Response :=
  {| status := 429;
     body := ErrorBody "Rate limit exceeded"
                       "API rate limit exceeded. Please try again later." |}.
Definition timeout_response : Response :=
  {| status := 408;
     body := ErrorBody "Request timeout" "Request took too long to complete" |}.
Definition internal_error_response : Response :=
  {| status := 500;
     body := ErrorBody "Internal server error" "Failed to fetch cryptocurrency data" |}.

(** The [catch] block of the [/price/:id] handler. *)
Definition price_handler_catch (error : JsError) : M Response :=
  if String.eqb (message error) MSG_NOT_FOUND then mret not_found_response
  else if String.eqb (message error) MSG_UPSTREAM_RATE
       then mret upstream_rate_limit_response
  else if String.eqb (message error) MSG_TIMEOUT then mret timeout_response
  else mret internal_error_response.

(** [app.get('/price/:id', ...)] *)
Definition price_handler (clientIp id : string) : M Response :=
  try_catch
    (admitted ← checkRateLimit clientIp;
     if negb admitted then mret local_rate_limit_response
     else
       cachedData ← getCachedData id;
       match cachedData with
       | Some d => mret {| status := 200; body := RecordBody d |}
       | None =>
           d ← getCryptocurrencyData id;
           setCachedData id d ;;
           mret {| status := 200; body := RecordBody d |}
       end)
    price_handler_catch.

(** [ids.split(',').map(id => id.trim())] *)
Definition coinIds (ids : string) : list string := map trim (split "," ids).

(** The [forEach] over [coinIds] filling [cachedResults] and [missingIds]. *)
Definition partition_cached (ids : list string)
  : M (gmap string PriceRecord * list string) :=
  foldM (λ (acc : gmap string PriceRecord * list string) id,
           let '(cachedResults, missingIds) := acc in
           cached ← getCachedData id;
           match cached with
           | Some d => mret (object_set id d cachedResults, missingIds)
           | None => mret (cachedResults, (missingIds ++ [id])%list)
           end) (∅, []) ids.

(** [app.get('/prices/:ids', ...)] *)
Definition prices_handler (clientIp ids : string) : M Response :=
  try_catch
    (admitted ← checkRateLimit clientIp;
     if negb admitted then mret local_rate_limit_response
     else
       '(cachedResults, missingIds) ← partition_cached (coinIds ids);
       freshResults ←
         (if (0 <? length missingIds)%nat then
            freshResults ← getMultipleCryptocurrencyData missingIds;
            foldM (λ _ (kv : string * PriceRecord), setCachedData kv.1 kv.2) tt
                  (map_to_list freshResults) ;;
            mret freshResults
          else mret ∅);
       let allResults := freshResults ∪ cachedResults in
       mret {| status := 200; body := MapBody allResults |})
    (λ error, mret internal_error_response).

End UpstreamClient.

(** ** A server run: requests served one after another *)

Inductive Target :=
| Price (id : string)
| Prices (ids : string).

Record Request := mkRequest {
  arrival : Z;
  client : string;
  target : Target;
  provider : Upstream
}.

Definition handler (r : Request) : M Response :=
  match target r with
  | Price id => price_handler (provider r) (client r) id
  | Prices ids => prices_handler (provider r) (client r) ids
  end.

(** Serving a request that arrives at [arrival r]; an error escaping a
    handler would reach the error middleware. *)
Definition serve (r : Request) (w : World) : Response * World :=
  match handler r (set_clock (arrival r) w) with
  | (Ret resp, w') => (resp, w')
  | (Throw _, w') =>
      ({| status := 500;
          body := ErrorBody "Internal server error" "An unexpected error occurred" |}, w')
  end.

Fixpoint serve_all (rs : list Request) (w : World) : list (Request * Response) * World :=
  match rs with
  | [] => ([], w)
  | r :: rest =>
      let '(resp, w1) := serve r w in
      let '(out, w2) := serve_all rest w1 in
      ((r, resp) :: out, w2)
  end.

(** * Definitions used by the statements *)

(** The timestamps of [ip] still inside the window that ends at [now]. *)
Definition recent (now : Z) (ip : string) (rl : gmap string (list Z)) : list Z :=
  filter (λ t, now - RATE_LIMIT_WINDOW < t) (default [] (rl !! ip)).

(** The pruning step in the specification's words: a timestamp survives
    when its age [now - t] is below the window duration. *)
Definition prune (now : Z) (timestamps : list Z) : list Z :=
  filter (λ t, now - t < RATE_LIMIT_WINDOW) timestamps.

(** A client whose fifty requests all arrived at instant 1000. *)
Definition burst_world (now : Z) : World :=
  {| cache := ∅;
     rateLimiter := {[ "10.0.0.7" := replicate 50 1000 ]};
     clock := now;
     calls := [] |}.

(** The world once an outbound call has returned. *)
Definition after_price (up : Upstream) (ids : string) (w : World) : World :=
  set_clock (clock w + elapsed (simple_price up ids)) (add_call (SimplePrice ids) w).
Definition after_info (up : Upstream) (id : string) (w : World) : World :=
  set_clock (clock w + elapsed (coins up id)) (add_call (CoinInfoCall id) w).

(** The error leaving the [catch] block of [getCryptocurrencyData]. *)
Definition rethrown (error : JsError) : JsError :=
  match response_status error with
  | Some st =>
      if st =? 404 then new_Error MSG_NOT_FOUND
      else if st =? 429 then new_Error MSG_UPSTREAM_RATE
      else if bool_decide (code error = Some "ECONNABORTED") then new_Error MSG_TIMEOUT
      else error
  | None =>
      if bool_decide (code error = Some "ECONNABORTED") then new_Error MSG_TIMEOUT
      else error
  end.

(** The response sent by the [catch] block of the [/price/:id] handler. *)
Definition price_error_response (error : JsError) : Response :=
  if String.eqb (message error) MSG_NOT_FOUND then not_found_response
  else if String.eqb (message error) MSG_UPSTREAM_RATE then upstream_rate_limit_response
  else if String.eqb (message error) MSG_TIMEOUT then timeout_response
  else internal_error_response.

Definition MSG_NO_SYMBOL : string :=
  "Cannot read properties of undefined (reading 'toUpperCase')".

(** What a cache read returns, as a function of the state. *)
Definition cached_fresh (w : World) (id : string) : option PriceRecord :=
  match cache w !! id with
  | Some e => if clock w - timestamp e <? CACHE_DURATION then Some (data e) else None
  | None => None
  end.

(** What the per-identifier closure of the bulk fetch resolves to: the
    provider's name and upper-cased symbol, or the fall-back built from the
    identifier when the info call (or the upper-casing) fails. *)
Definition info_result (up : Upstream) (id : string) : InfoResult :=
  let fallback := {| ir_id := id; ir_name := id; ir_symbol := toUpperCase id |} in
  match outcome (coins up id) with
  | inl _ => fallback
  | inr i =>
      match info_symbol i with
      | Some s => {| ir_id := id; ir_name := info_name i; ir_symbol := toUpperCase s |}
      | None => fallback
      end
  end.

(** The record the bulk fetch builds for [id] from what the price payload
    has under it. *)
Definition bulk_record (up : Upstream) (id : string) (found : option JsValue) : PriceRecord :=
  {| name := ir_name (info_result up id);
     symbol := ir_symbol (info_result up id);
     price := usd_of found |}.

(** The [result] object the bulk fetch fills from a payload that is not
    [null]. *)
Definition combined (d : PriceData) (infoResults : list InfoResult)
  : gmap string PriceRecord :=
  foldl (λ result info,
           if is_truthy (member d (ir_id info)) then
             object_set (ir_id info)
               {| name := ir_name info; symbol := ir_symbol info;
                  price := usd_of (member d (ir_id info)) |} result
           else result) ∅ infoResults.

(** What the bulk fetch returns for [ids], if it returns: it raises when the
    price call fails, and when the payload is [null] and there is an
    identifier to look up. *)
Definition fetched (up : Upstream) (ids : list string) : option (gmap string PriceRecord) :=
  match outcome (simple_price up (join "," ids)) with
  | inl _ => None
  | inr NoData => match ids with [] => Some ∅ | _ :: _ => None end
  | inr d => Some (combined d (map (info_result up) ids))
  end.

(** The info calls the bulk fetch makes: one per identifier once the price
    call has answered, none when it failed. *)
Definition bulk_info_calls (up : Upstream) (ids : list string) : list UpstreamCall :=
  match outcome (simple_price up (join "," ids)) with
  | inl _ => []
  | inr _ => map CoinInfoCall ids
  end.

(** The two accumulators of the bulk handler's cache scan. *)
Definition hits (w : World) (acc : gmap string PriceRecord) (ids : list string)
  : gmap string PriceRecord :=
  foldl (λ m id, match cached_fresh w id with Some d => object_set id d m | None => m end)
        acc ids.

Definition misses (w : World) (ids : list string) : list string :=
  filter (λ id, cached_fresh w id = None) ids.

(** A provider that knows bitcoin and cardano. *)
Definition demo_prices : PriceData :=
  parsed_object {[ "bitcoin" := JsEntry {| usd := Some (90001 # 2) |};
                   "cardano" := JsEntry {| usd := Some (9 # 20) |} ]}.

Definition provider_ok : Upstream :=
  {| simple_price := λ _, mkReply 120 (inr demo_prices);
     coins := λ id, mkReply 80 (inr {| info_name := id; info_symbol := Some id |}) |}.

(** A state in which bitcoin was cached one minute before instant 100000. *)
Definition bitcoin_cached : World :=
  {| cache := {[ "bitcoin" := {| data := {| name := "Bitcoin"; symbol := "BTC";
                                            price := Some (90001 # 2) |};
                                 timestamp := 40000 |} ]};
     rateLimiter := ∅;
     clock := 100000;
     calls := [] |}.

(** A provider whose price response is empty and which knows no coin. *)
Definition provider_unknown : Upstream :=
  {| simple_price := λ _, mkReply 90 (inr (parsed_object ∅));
     coins := λ _, mkReply 70 (inl {| message := "Request failed with status code 404";
                                      response_status := Some 404;
                                      code := Some "ERR_BAD_REQUEST" |}) |}.

(** The failure classes of the specification, and the error object the
    service answers for each. *)
Inductive Failure :=
| NotFound
| UpstreamRateLimited
| Timeout
| LocalRateLimited
| OtherFailure.

Definition failure_response (f : Failure) : Response :=
  match f with
  | NotFound => not_found_response
  | UpstreamRateLimited => upstream_rate_limit_response
  | Timeout => timeout_response
  | LocalRateLimited => local_rate_limit_response
  | OtherFailure => internal_error_response
  end.

(** A provider whose price call times out. *)
Definition provider_timeout : Upstream :=
  {| simple_price := λ _, mkReply 10000 (inl {| message := "timeout of 10000ms exceeded";
                                                response_status := None;
                                                code := Some "ECONNABORTED" |});
     coins := λ id, mkReply 80 (inr {| info_name := id; info_symbol := Some id |}) |}.


(** A provider whose price call answers and whose info call fails. *)
Definition provider_info_down : Upstream :=
  {| simple_price := λ _, mkReply 120 (inr demo_prices);
     coins := λ _, mkReply 80 (inl {| message := "Network Error";
                                      response_status := None;
                                      code := Some "ERR_NETWORK" |}) |}.

(** The answer of the local limiter, recognisable by its message. *)
Definition is_local_rejection (resp : Response) : bool :=
  match body resp with
  | ErrorBody _ msg =>
      (status resp =? 429) && String.eqb msg "Too many requests. Please try again later."
  | _ => false
  end.

(** Arrival times of the requests of [ip] that were admitted, over both
    endpoints, in the order served. *)
Definition admitted_times (ip : string) (log : list (Request * Response)) : list Z :=
  (λ rr, arrival rr.1) <$>
    filter (λ rr, client rr.1 = ip ∧ is_local_rejection rr.2 = false) log.

(** Number of admitted requests of [ip] in the window of one minute that
    ends at [T]. *)
Definition admitted_in_window (ip : string) (T : Z) (log : list (Request * Response)) : nat :=
  length (filter (λ t, T - RATE_LIMIT_WINDOW < t ∧ t <= T) (admitted_times ip log)).

(** The stored windows agree with the true history on every window that
    ends no earlier than the last request served. *)
Definition limiter_tracks (log : list (Request * Response)) (rl : gmap string (list Z)) : Prop :=
  ∀ ip now, (∀ rr, rr ∈ log -> arrival rr.1 <= now) ->
    recent now ip rl = filter (λ t, now - RATE_LIMIT_WINDOW < t) (admitted_times ip log).

Definition window_bounded (log : list (Request * Response)) : Prop :=
  ∀ ip T, (admitted_in_window ip T log <= MAX_REQUESTS_PER_MINUTE)%nat.

(** Two requests of one client, one to each endpoint. *)
Definition demo_requests : list Request :=
  [ {| arrival := 1000; client := "10.0.0.7"; target := Price "bitcoin";
       provider := provider_ok |};
    {| arrival := 1500; client := "10.0.0.7"; target := Prices "bitcoin,cardano";
       provider := provider_ok |} ].

(** Two requests of one client, more than a window apart, with a request of
    another client in between. *)
Definition spaced_requests : list Request :=
  [ {| arrival := 1000; client := "10.0.0.7"; target := Price "bitcoin";
       provider := provider_ok |};
    {| arrival := 30000; client := "10.0.0.8"; target := Prices "bitcoin,cardano";
       provider := provider_ok |} ].

Definition spaced_last : Request :=
  {| arrival := 61000; client := "10.0.0.7"; target := Prices "cardano";
     provider := provider_ok |}.

(** A request of the client of [burst_world], inside the window of its
    burst. *)
Definition burst_request : Request :=
  {| arrival := 2000; client := "10.0.0.7"; target := Price "bitcoin";
     provider := provider_ok |}.

(** The identifiers a request names. *)
Definition requested_ids (r : Request) : list string :=
  match target r with
  | Price id => [id]
  | Prices ids => coinIds ids
  end.

(** The info calls the single fetch goes on to make after its price call:
    one, when the lookup [priceResponse.data[id]] finds a truthy value (an
    own property or an inherited member), none otherwise. *)
Definition single_info_calls (up : Upstream) (id : string) : list UpstreamCall :=
  match outcome (simple_price up id) with
  | inl _ => []
  | inr d => if is_truthy (member d id) then [CoinInfoCall id] else []
  end.

(** A provider whose price response is the empty object and whose info call
    times out. *)
Definition provider_empty_slow : Upstream :=
  {| simple_price := λ _, mkReply 90 (inr (parsed_object ∅));
     coins := λ _, mkReply 10000 (inl {| message := "timeout of 10000ms exceeded";
                                         response_status := None;
                                         code := Some "ECONNABORTED" |}) |}.

(** A provider answering the price call with a body that is not JSON. *)
Definition provider_invalid_json : Upstream :=
  {| simple_price := λ _, mkReply 90 (inr (unparsed_text "invalid json"));
     coins := λ id, mkReply 80 (inr {| info_name := id; info_symbol := Some id |}) |}.

(** A provider whose price response has a member named [__proto__] next to
    bitcoin, as [JSON.parse] builds it from such a body. *)
Definition provider_proto : Upstream :=
  {| simple_price := λ _, mkReply 120
                          (inr (parsed_object
                                  {[ "__proto__" := JsEntry {| usd := Some (5 # 1) |};
                                     "bitcoin" := JsEntry {| usd := Some (90001 # 2) |} ]}));
     coins := λ id, mkReply 80 (inr {| info_name := id; info_symbol := Some id |}) |}.


(** A request for a coin the provider does not know. *)
Definition unknown_request : Request :=
  {| arrival := 5000; client := "10.0.0.9"; target := Price "unknown-coin-xyz";
     provider := provider_unknown |}.

(** A bulk request naming a cached coin, a known coin and an unknown one. *)
Definition mixed_request : Request :=
  {| arrival := 100000; client := "10.0.0.7";
     target := Prices "bitcoin, cardano ,unknown-coin-xyz";
     provider := provider_info_down |}.

(** Whether character [c] occurs in [s], and how often. *)
Fixpoint contains (c : ascii) (s : string) : bool :=
  match s with
  | EmptyString => false
  | String a s' => Ascii.eqb a c || contains c s'
  end.

Fixpoint occurrences (c : ascii) (s : string) : nat :=
  match s with
  | EmptyString => 0%nat
  | String a s' => ((if Ascii.eqb a c then 1 else 0) + occurrences c s')%nat
  end.

(** Whether [s] has a lower-case ASCII letter. *)
Fixpoint has_lowercase (s : string) : bool :=
  match s with
  | EmptyString => false
  | String a s' =>
      ((97 <=? nat_of_ascii a)%nat && (nat_of_ascii a <=? 122)%nat) || has_lowercase s'
  end.

(** * Properties *)

(** ** Rate limiter *)

(** [checkRateLimit] in one equation: the [has]/[set]/[get] prelude only
    normalises a missing entry to the empty list. *)
Lemma checkRateLimit_eq ip w :
  checkRateLimit ip w =
    let r := recent (clock w) ip (rateLimiter w) in
    if (MAX_REQUESTS_PER_MINUTE <=? length r)%nat then (Ret false, w)
    else (Ret true, set_rateLimiter (<[ip := (r ++ [clock w])%list]> (rateLimiter w)) w).
Proof.
  unfold checkRateLimit, recent, mbind, M_bind, mret, M_ret, Date_now,
    rateLimiter_has, rateLimiter_get, rateLimiter_set.
  destruct (rateLimiter w !! ip) as [l|] eqn:Hl; cbn -[Nat.leb].
  - rewrite Hl. cbn -[Nat.leb].
    destruct (MAX_REQUESTS_PER_MINUTE <=? _)%nat; reflexivity.
  - rewrite lookup_insert_eq. cbn -[Nat.leb].
    unfold set_rateLimiter; cbn. by rewrite insert_insert_eq.
Qed.

Lemma checkRateLimit_admit ip w :
  (length (recent (clock w) ip (rateLimiter w)) < MAX_REQUESTS_PER_MINUTE)%nat ->
  checkRateLimit ip w =
    (Ret true,
     set_rateLimiter
       (<[ip := (recent (clock w) ip (rateLimiter w) ++ [clock w])%list]> (rateLimiter w)) w).
Proof.
  intros H. rewrite checkRateLimit_eq. cbv zeta.
  destruct (Nat.leb_spec MAX_REQUESTS_PER_MINUTE
              (length (recent (clock w) ip (rateLimiter w)))); [lia | done].
Qed.

Lemma checkRateLimit_reject ip w :
  (MAX_REQUESTS_PER_MINUTE <= length (recent (clock w) ip (rateLimiter w)))%nat ->
  checkRateLimit ip w = (Ret false, w).
Proof.
  intros H. rewrite checkRateLimit_eq. cbv zeta.
  destruct (Nat.leb_spec MAX_REQUESTS_PER_MINUTE
              (length (recent (clock w) ip (rateLimiter w)))); [done | lia].
Qed.

Lemma checkRateLimit_cases ip w :
  let r := recent (clock w) ip (rateLimiter w) in
  (length r < MAX_REQUESTS_PER_MINUTE)%nat ∧
    checkRateLimit ip w =
      (Ret true, set_rateLimiter (<[ip := (r ++ [clock w])%list]> (rateLimiter w)) w)
  ∨ (MAX_REQUESTS_PER_MINUTE <= length r)%nat ∧ checkRateLimit ip w = (Ret false, w).
Proof.
  cbv zeta.
  destruct (Nat.leb_spec MAX_REQUESTS_PER_MINUTE
              (length (recent (clock w) ip (rateLimiter w)))).
  - right. split; [done | by apply checkRateLimit_reject].
  - left. split; [done | by apply checkRateLimit_admit].
Qed.

Lemma recent_all_old now ip rl :
  (∀ t, t ∈ default [] (rl !! ip) -> RATE_LIMIT_WINDOW < now - t) ->
  recent now ip rl = [].
Proof.
  intros H. unfold recent.
  induction (default [] (rl !! ip)) as [|t l IH]; [done |].
  rewrite filter_cons. destruct (decide (now - RATE_LIMIT_WINDOW < t)) as [Ht|Ht].
  - specialize (H t ltac:(left)). lia.
  - apply IH. intros t' Ht'. apply H. by right.
Qed.

Lemma recent_prune now ip rl : recent now ip rl = prune now (default [] (rl !! ip)).
Proof.
  unfold recent, prune. apply list_filter_iff. intros t. lia.
Qed.

(** C2. [checkRateLimit] keeps, of the client's recorded timestamps, those
    whose age [now - t] is below [RATE_LIMIT_WINDOW] (the boundary is the
    instant [now - RATE_LIMIT_WINDOW]; a timestamp exactly that old is
    dropped too).  If fewer than [MAX_REQUESTS_PER_MINUTE] remain it stores
    them with [now] appended and returns true; otherwise it returns false and
    records nothing.  Hence a request arriving more than
    [RATE_LIMIT_WINDOW] after every recorded request is admitted. *)
Theorem checkRateLimit_sliding_window (ip : string) (w : World) :
  let now := clock w in
  let remaining := prune now (default [] (rateLimiter w !! ip)) in
  checkRateLimit ip w =
    (if decide (length remaining < MAX_REQUESTS_PER_MINUTE)%nat
     then (Ret true,
           set_rateLimiter (<[ip := (remaining ++ [now])%list]> (rateLimiter w)) w)
     else (Ret false, w))
  ∧ ((∀ t, t ∈ default [] (rateLimiter w !! ip) -> RATE_LIMIT_WINDOW < now - t) ->
     (checkRateLimit ip w).1 = Ret true).
Proof.
  cbv zeta. rewrite <- recent_prune. split.
  - destruct (decide _) as [Hlt|Hge].
    + by apply checkRateLimit_admit.
    + apply checkRateLimit_reject. lia.
  - intros Hold. rewrite checkRateLimit_admit; [done |].
    rewrite recent_all_old by done. cbn. unfold MAX_REQUESTS_PER_MINUTE. lia.
Qed.

Lemma checkRateLimit_sliding_window_witness :
  (checkRateLimit "10.0.0.7" (burst_world 62000)).1 = Ret true.
Proof.
  apply (proj2 (checkRateLimit_sliding_window "10.0.0.7" (burst_world 62000))).
  intros t. cbn [burst_world rateLimiter clock]. rewrite lookup_singleton_eq.
  cbn [default]. intros Ht. apply elem_of_replicate in Ht as [-> _].
  unfold RATE_LIMIT_WINDOW. lia.
Defined.

(** C7. After a successful admission the stored window of the client holds
    at most [MAX_REQUESTS_PER_MINUTE] timestamps, all of them inside the
    trailing [RATE_LIMIT_WINDOW]; and the admission is rejected whenever one
    more timestamp would exceed that count. *)
Theorem admitted_window_bounded (ip : string) (w : World) :
  (∀ w', checkRateLimit ip w = (Ret true, w') ->
     ∃ l, rateLimiter w' !! ip = Some l
          ∧ (length l <= MAX_REQUESTS_PER_MINUTE)%nat
          ∧ ∀ t, t ∈ l -> clock w - RATE_LIMIT_WINDOW < t)
  ∧ ((MAX_REQUESTS_PER_MINUTE < length (recent (clock w) ip (rateLimiter w)) + 1)%nat ->
     checkRateLimit ip w = (Ret false, w)).
Proof.
  split.
  - intros w' Hrun.
    destruct (checkRateLimit_cases ip w) as [[Hlt Heq]|[_ Heq]];
      rewrite Heq in Hrun; [| congruence].
    injection Hrun as <-. eexists. split; [apply lookup_insert_eq |]. split.
    + rewrite length_app. cbn. lia.
    + intros t [Ht|Ht]%elem_of_app.
      * unfold recent in Ht. by apply list_elem_of_filter in Ht as [? _].
      * apply list_elem_of_singleton in Ht as ->. unfold RATE_LIMIT_WINDOW. lia.
  - intros H. apply checkRateLimit_reject. lia.
Qed.

Lemma admitted_window_bounded_witness :
  (∃ l, rateLimiter (checkRateLimit "10.0.0.7" (initial_world 1000)).2 !! "10.0.0.7" = Some l
        ∧ (length l <= MAX_REQUESTS_PER_MINUTE)%nat
        ∧ ∀ t, t ∈ l -> clock (initial_world 1000) - RATE_LIMIT_WINDOW < t)
  ∧ checkRateLimit "10.0.0.7" (burst_world 2000) = (Ret false, burst_world 2000).
Proof.
  split.
  - apply (proj1 (admitted_window_bounded "10.0.0.7" (initial_world 1000))).
    vm_compute. reflexivity.
  - apply (proj2 (admitted_window_bounded "10.0.0.7" (burst_world 2000))).
    vm_compute. lia.
Defined.

(** C9. A rejected call leaves the whole state, and so the stored window of
    the client, exactly as it was: neither the pruned list nor a new
    timestamp is written. *)
Theorem rejected_leaves_state (ip : string) (w w' : World) :
  checkRateLimit ip w = (Ret false, w') ->
  w' = w ∧ rateLimiter w' !! ip = rateLimiter w !! ip.
Proof.
  intros Hrun.
  destruct (checkRateLimit_cases ip w) as [[_ Heq]|[_ Heq]];
    rewrite Heq in Hrun; [congruence |].
  injection Hrun as <-. done.
Qed.

Lemma rejected_leaves_state_witness :
  (checkRateLimit "10.0.0.7" (burst_world 2000)).2 = burst_world 2000
  ∧ rateLimiter (checkRateLimit "10.0.0.7" (burst_world 2000)).2 !! "10.0.0.7"
    = rateLimiter (burst_world 2000) !! "10.0.0.7".
Proof.
  apply (rejected_leaves_state "10.0.0.7" (burst_world 2000)).
  vm_compute. reflexivity.
Defined.

(** ** Cache *)

(** C3. A cache read returns the stored record exactly when an entry exists
    whose age [now - timestamp] is below [CACHE_DURATION]; otherwise it
    returns nothing; and it leaves the cache, like the rest of the state,
    untouched. *)
Theorem getCachedData_fresh_only (id : string) (w : World) :
  (∀ d, (getCachedData id w).1 = Ret (Some d) <->
        ∃ e, cache w !! id = Some e ∧ data e = d
             ∧ clock w - timestamp e < CACHE_DURATION)
  ∧ ((getCachedData id w).1 = Ret None <->
     ¬ ∃ e, cache w !! id = Some e ∧ clock w - timestamp e < CACHE_DURATION)
  ∧ (getCachedData id w).2 = w
  ∧ cache (getCachedData id w).2 = cache w.
Proof.
  unfold getCachedData.
  destruct (cache w !! id) as [e|] eqn:He.
  - destruct (Z.ltb_spec (clock w - timestamp e) CACHE_DURATION) as [Hf|Hs]; cbn.
    + repeat split; try done.
      * intros [= <-]. eauto.
      * intros (e' & [= <-] & <- & _). done.
      * intros Hn. exfalso. apply Hn. eauto.
    + repeat split; try done.
      * intros (e' & [= <-] & _ & Hlt). lia.
      * intros _ (e' & [= <-] & Hlt). lia.
  - cbn. repeat split; try done.
    + intros (e' & [=] & _).
    + intros _ (e' & [=] & _).
Qed.

(** ** Upstream client *)

Lemma bind_run {A B} (m : M A) (f : A -> M B) w :
  (m ≫= f) w =
    match m w with
    | (Ret a, w') => f a w'
    | (Throw e, w') => (Throw e, w')
    end.
Proof. reflexivity. Qed.

Lemma try_catch_run {A} (m : M A) (h : JsError -> M A) w :
  try_catch m h w =
    match m w with
    | (Ret a, w') => (Ret a, w')
    | (Throw e, w') => h e w'
    end.
Proof. reflexivity. Qed.

Lemma getCryptocurrencyData_catch_run e w :
  getCryptocurrencyData_catch e w = (Throw (rethrown e), w).
Proof.
  unfold getCryptocurrencyData_catch, rethrown. rewrite !bind_run.
  destruct (response_status e) as [st|];
    [destruct (st =? 404); [done|]; destruct (st =? 429); [done|] |];
    cbn; destruct (bool_decide _); reflexivity.
Qed.

Lemma price_handler_catch_run e w :
  price_handler_catch e w = (Ret (price_error_response e), w).
Proof.
  unfold price_handler_catch, price_error_response.
  repeat (destruct (String.eqb _ _); [reflexivity |]). reflexivity.
Qed.

Lemma getCryptocurrencyData_run up id w :
  getCryptocurrencyData up id w =
    let w1 := after_price up id w in
    match outcome (simple_price up id) with
    | inl e => (Throw (rethrown e), w1)
    | inr NoData => (Throw (TypeError "Cannot read properties of null"), w1)
    | inr d =>
        if is_truthy (member d id) then
          let w2 := after_info up id (set_clock (clock w1 + 200) w1) in
          match outcome (coins up id) with
          | inl e => (Throw (rethrown e), w2)
          | inr i =>
              match info_symbol i with
              | None => (Throw (TypeError MSG_NO_SYMBOL), w2)
              | Some s =>
                  (Ret {| name := info_name i; symbol := toUpperCase s;
                          price := usd_of (member d id) |}, w2)
              end
          end
        else (Throw (new_Error MSG_NOT_FOUND), w1)
    end.
Proof.
  unfold getCryptocurrencyData. rewrite try_catch_run, bind_run.
  unfold axios_get_price. fold (after_price up id w).
  pose proof (getCryptocurrencyData_catch_run) as Hcatch.
  cbv zeta.
  destruct (outcome (simple_price up id)) as [e|[|own chain]]; [apply Hcatch | reflexivity |].
  rewrite bind_run. cbn [data_get mret M_ret].
  destruct (is_truthy (member (Data own chain) id)); cbn [negb]; [| reflexivity].
  rewrite !bind_run. unfold sleep, axios_get_info.
  fold (after_info up id (set_clock (clock (after_price up id w) + 200) (after_price up id w))).
  destruct (outcome (coins up id)) as [e|i]; [apply Hcatch |].
  rewrite bind_run. unfold symbol_toUpperCase.
  destruct (info_symbol i) as [s|]; reflexivity.
Qed.

Lemma getCachedData_run id w : getCachedData id w = (Ret (cached_fresh w id), w).
Proof.
  unfold getCachedData, cached_fresh.
  destruct (cache w !! id) as [e|]; [| done].
  by destruct (clock w - timestamp e <? CACHE_DURATION).
Qed.

Lemma info_result_id up id : ir_id (info_result up id) = id.
Proof.
  unfold info_result. destruct (outcome (coins up id)) as [|i]; [done |].
  by destruct (info_symbol i).
Qed.

Lemma fetchInfo_run up id w :
  fetchInfo up id w = (Ret (info_result up id), after_info up id w).
Proof.
  unfold fetchInfo, info_result. rewrite try_catch_run, bind_run.
  unfold axios_get_info. fold (after_info up id w).
  destruct (outcome (coins up id)) as [e|i]; [reflexivity |].
  rewrite bind_run. unfold symbol_toUpperCase.
  destruct (info_symbol i); reflexivity.
Qed.

Lemma settle_all_fetchInfo up t0 ids : ∀ w rs w',
  settle_all t0 (map (fetchInfo up) ids) w = (rs, w') ->
  fulfilled rs = map (info_result up) ids
  ∧ first_rejection rs = None
  ∧ cache w' = cache w
  ∧ rateLimiter w' = rateLimiter w
  ∧ calls w' = (calls w ++ map CoinInfoCall ids)%list.
Proof.
  induction ids as [|id ids IH]; intros w rs w' Hrun; cbn in Hrun.
  - injection Hrun as <- <-. by rewrite app_nil_r.
  - rewrite fetchInfo_run in Hrun.
    destruct (settle_all t0 (map (fetchInfo up) ids) (after_info up id (set_clock t0 w)))
      as [rs1 w1] eqn:Hrest.
    injection Hrun as <- <-.
    destruct (IH _ _ _ Hrest) as (Hf & Hr & Hc & Hl & Hcalls).
    cbn. rewrite Hf, Hr, Hc, Hl, Hcalls. cbn. by rewrite <- app_assoc.
Qed.

Lemma promise_all_fetchInfo up ids w :
  ∃ w', promise_all (map (fetchInfo up) ids) w = (Ret (map (info_result up) ids), w')
        ∧ cache w' = cache w
        ∧ rateLimiter w' = rateLimiter w
        ∧ calls w' = (calls w ++ map CoinInfoCall ids)%list.
Proof.
  unfold promise_all.
  destruct (settle_all (clock w) (map (fetchInfo up) ids) w) as [rs w1] eqn:Hrun.
  destruct (settle_all_fetchInfo _ _ _ _ _ _ Hrun) as (Hf & Hr & Hc & Hl & Hcalls).
  rewrite Hr, Hf. eexists. split; [reflexivity |]. done.
Qed.

Lemma combine_results_run (own : gmap string JsValue) chain infoResults :
  ∀ (acc : gmap string PriceRecord) w,
  foldM (λ (result : gmap string PriceRecord) info,
           found ← data_get (Data own chain) (ir_id info);
           if is_truthy found then
             mret (object_set (ir_id info)
                     {| name := ir_name info;
                        symbol := ir_symbol info;
                        price := usd_of found |} result)
           else mret result) acc infoResults w =
    (Ret (foldl (λ result info,
                   if is_truthy (member (Data own chain) (ir_id info)) then
                     object_set (ir_id info)
                       {| name := ir_name info; symbol := ir_symbol info;
                          price := usd_of (member (Data own chain) (ir_id info)) |} result
                   else result) acc infoResults), w).
Proof.
  induction infoResults as [|info infos IH]; intros acc w; cbn [foldM foldl]; [done |].
  rewrite bind_run, bind_run. cbn [data_get mret M_ret].
  destruct (is_truthy (member (Data own chain) (ir_id info))); cbn [mret M_ret];
    apply IH.
Qed.

Lemma combine_results_null info infos w :
  combine_results NoData (info :: infos) w
    = (Throw (TypeError "Cannot read properties of null"), w).
Proof. reflexivity. Qed.

Lemma getMultipleCryptocurrencyData_run up ids w :
  ∃ o w', getMultipleCryptocurrencyData up ids w = (o, w')
          ∧ match fetched up ids with
            | Some m => o = Ret m
            | None => ∃ e, o = Throw e
            end
          ∧ cache w' = cache w
          ∧ rateLimiter w' = rateLimiter w
          ∧ calls w' = (calls w ++ SimplePrice (join "," ids) :: bulk_info_calls up ids)%list.
Proof.
  unfold getMultipleCryptocurrencyData, fetched, bulk_info_calls.
  rewrite try_catch_run, bind_run.
  unfold axios_get_price. fold (after_price up (join "," ids) w).
  destruct (outcome (simple_price up (join "," ids))) as [e|d].
  { eexists _, _. split; [reflexivity |]. split; [by eexists |]. done. }
  rewrite !bind_run. unfold sleep.
  destruct (promise_all_fetchInfo up ids
              (set_clock (clock (after_price up (join "," ids) w) + 300)
                 (after_price up (join "," ids) w)))
    as (w' & Hrun & Hc & Hl & Hcalls).
  rewrite bind_run, Hrun.
  assert (Hframe : cache w' = cache w ∧ rateLimiter w' = rateLimiter w
                   ∧ calls w' = (calls w ++ SimplePrice (join "," ids)
                                   :: map CoinInfoCall ids)%list).
  { rewrite Hc, Hl, Hcalls. cbn. by rewrite <- app_assoc. }
  destruct d as [|own chain].
  - destruct ids as [|id ids]; cbn [map].
    + eexists _, _. split; [reflexivity |]. done.
    + rewrite combine_results_null.
      eexists _, _. split; [reflexivity |]. split; [by eexists |]. done.
  - unfold combine_results. rewrite combine_results_run.
    eexists _, _. split; [reflexivity |]. done.
Qed.

Lemma object_set_lookup {V} (key : string) (v : V) (obj : gmap string V) k :
  object_set key v obj !! k =
    if decide (k = key ∧ k ≠ "__proto__") then Some v else obj !! k.
Proof.
  unfold object_set. destruct (String.eqb_spec key "__proto__") as [->|Hne].
  - rewrite decide_False; [done | tauto].
  - destruct (decide (k = key)) as [->|Hk].
    + rewrite decide_True by done. apply lookup_insert_eq.
    + rewrite decide_False by tauto. by apply lookup_insert_ne.
Qed.

Lemma combined_foldl up (d : PriceData) ids :
  ∀ (acc : gmap string PriceRecord) id,
  foldl (λ result info,
           if is_truthy (member d (ir_id info)) then
             object_set (ir_id info)
               {| name := ir_name info; symbol := ir_symbol info;
                  price := usd_of (member d (ir_id info)) |} result
           else result) acc (map (info_result up) ids) !! id =
    if decide (id ∈ ids ∧ id ≠ "__proto__") then
      if is_truthy (member d id) then Some (bulk_record up id (member d id))
      else acc !! id
    else acc !! id.
Proof.
  induction ids as [|x ids IH]; intros acc id; cbn [map foldl].
  - rewrite decide_False; [done |]. intros [Hin _]. by apply not_elem_of_nil in Hin.
  - rewrite IH, info_result_id.
    destruct (decide (id ∈ ids ∧ id ≠ "__proto__")) as [[Hin Hp]|Hnin].
    + rewrite decide_True by (split; [by right | done]).
      destruct (is_truthy (member d id)) eqn:Hid; [done |].
      destruct (is_truthy (member d x)) eqn:Hx; [| done].
      rewrite object_set_lookup, decide_False; [done |]. intros [-> _]. congruence.
    + destruct (decide (id = x ∧ id ≠ "__proto__")) as [[-> Hp]|Hne].
      * rewrite decide_True by (split; [by left | done]).
        destruct (is_truthy (member d x)) eqn:Hx; [| done].
        rewrite object_set_lookup, decide_True by done. done.
      * rewrite decide_False.
        2:{ intros [[->|Hin]%elem_of_cons Hp]; tauto. }
        destruct (is_truthy (member d x)) eqn:Hx; [| done].
        rewrite object_set_lookup, decide_False; [done | tauto].
Qed.

Lemma combined_lookup up (d : PriceData) ids id :
  combined d (map (info_result up) ids) !! id =
    if decide (id ∈ ids ∧ id ≠ "__proto__") then
      if is_truthy (member d id) then Some (bulk_record up id (member d id)) else None
    else None.
Proof.
  unfold combined. rewrite combined_foldl, lookup_empty.
  destruct (decide _); [| done]. by destruct (is_truthy _).
Qed.

(** The keys of what the bulk fetch returns are among the identifiers asked
    for. *)
Lemma fetched_keys up ids m id :
  fetched up ids = Some m -> is_Some (m !! id) -> id ∈ ids ∧ id ≠ "__proto__".
Proof.
  unfold fetched. intros Hf Hid.
  destruct (outcome (simple_price up (join "," ids))) as [e|[|own chain]]; [done | |].
  - destruct ids; [| done]. injection Hf as <-. rewrite lookup_empty in Hid.
    by destruct Hid.
  - injection Hf as <-. rewrite combined_lookup in Hid.
    destruct (decide _); [done |]. by destruct Hid.
Qed.

(** ** Handlers *)

Lemma partition_cached_foldM w ids : ∀ acc missing,
  foldM (λ (acc : gmap string PriceRecord * list string) id,
           let '(cachedResults, missingIds) := acc in
           cached ← getCachedData id;
           match cached with
           | Some d => mret (object_set id d cachedResults, missingIds)
           | None => mret (cachedResults, (missingIds ++ [id])%list)
           end) (acc, missing) ids w =
    (Ret (hits w acc ids, (missing ++ misses w ids)%list), w).
Proof.
  induction ids as [|id ids IH]; intros acc missing; cbn [foldM].
  - unfold misses. by rewrite filter_nil, app_nil_r.
  - rewrite bind_run, bind_run, getCachedData_run.
    unfold misses. rewrite filter_cons. fold (misses w ids).
    destruct (cached_fresh w id) as [d|] eqn:Hc.
    + cbn [mret M_ret]. rewrite IH. cbn [hits foldl]. rewrite Hc.
      rewrite decide_False by done. done.
    + cbn [mret M_ret]. rewrite IH. cbn [hits foldl]. rewrite Hc.
      rewrite decide_True by done. by rewrite <- app_assoc.
Qed.

Lemma partition_cached_run ids w :
  partition_cached ids w = (Ret (hits w ∅ ids, misses w ids), w).
Proof. unfold partition_cached. by rewrite partition_cached_foldM. Qed.

Lemma hits_lookup w ids : ∀ (acc : gmap string PriceRecord) id,
  hits w acc ids !! id =
    if decide (id ∈ ids ∧ id ≠ "__proto__") then
      match cached_fresh w id with Some d => Some d | None => acc !! id end
    else acc !! id.
Proof.
  induction ids as [|x ids IH]; intros acc id; cbn [hits foldl].
  - rewrite decide_False; [done |]. intros [Hin _]. by apply not_elem_of_nil in Hin.
  - fold (hits w (match cached_fresh w x with
                  | Some d => object_set x d acc
                  | None => acc
                  end) ids).
    rewrite IH.
    destruct (decide (id ∈ ids ∧ id ≠ "__proto__")) as [[Hin Hp]|Hnin].
    + rewrite decide_True by (split; [by right | done]).
      destruct (cached_fresh w id) as [d|] eqn:Hc; [done |].
      destruct (cached_fresh w x) as [dx|] eqn:Hx; [| done].
      rewrite object_set_lookup, decide_False; [done |]. intros [-> _]. congruence.
    + destruct (decide (id = x ∧ id ≠ "__proto__")) as [[-> Hp]|Hne].
      * rewrite decide_True by (split; [by left | done]).
        destruct (cached_fresh w x) as [dx|] eqn:Hx; [| done].
        rewrite object_set_lookup, decide_True by done. done.
      * rewrite decide_False.
        2:{ intros [[->|Hin]%elem_of_cons Hp]; tauto. }
        destruct (cached_fresh w x) as [dx|] eqn:Hx; [| done].
        rewrite object_set_lookup, decide_False; [done | tauto].
Qed.

Lemma misses_elem w ids id :
  id ∈ misses w ids <-> id ∈ ids ∧ cached_fresh w id = None.
Proof. unfold misses. rewrite list_elem_of_filter. tauto. Qed.

(** Writing a list of fresh records into the cache, as the bulk handler's
    [forEach] does. *)
Lemma cache_writes_run (l : list (string * PriceRecord)) : ∀ w,
  NoDup l.*1 ->
  ∃ w', foldM (λ _ (kv : string * PriceRecord), setCachedData kv.1 kv.2) tt l w
          = (Ret tt, w')
        ∧ rateLimiter w' = rateLimiter w
        ∧ clock w' = clock w
        ∧ calls w' = calls w
        ∧ ∀ k, cache w' !! k =
                 match (list_to_map l : gmap string PriceRecord) !! k with
                 | Some d => Some {| data := d; timestamp := clock w |}
                 | None => cache w !! k
                 end.
Proof.
  induction l as [|[k0 d0] l IH]; intros w Hnd; cbn [foldM].
  - eexists. split; [reflexivity |]. repeat split; try done.
  - rewrite bind_run. unfold setCachedData at 1. cbn [fst snd].
    apply NoDup_cons in Hnd as [Hk0 Hnd].
    destruct (IH (set_cache (<[k0:={| data := d0; timestamp := clock w |}]> (cache w)) w) Hnd)
      as (w' & Hrun & Hl & Hclk & Hcalls & Hcache).
    exists w'. split; [exact Hrun |]. repeat split; try done.
    intros k. rewrite Hcache. cbn [list_to_map foldr set_cache cache clock fst snd].
    destruct (decide (k = k0)) as [->|Hne].
    + rewrite (not_elem_of_list_to_map_1 (M:=gmap string) l k0 Hk0).
      by rewrite !lookup_insert_eq.
    + rewrite (lookup_insert_ne (list_to_map l) k0 k) by congruence.
      destruct (list_to_map l !! k); [done |].
      rewrite lookup_insert_ne; [done | congruence].
Qed.

Lemma checkRateLimit_frame ip w b w1 :
  checkRateLimit ip w = (b, w1) ->
  cache w1 = cache w ∧ clock w1 = clock w ∧ calls w1 = calls w.
Proof.
  intros Hrun.
  destruct (checkRateLimit_cases ip w) as [[_ Heq]|[_ Heq]];
    rewrite Heq in Hrun; injection Hrun as <- <-; done.
Qed.

Lemma cached_fresh_ext w w' id :
  cache w' = cache w -> clock w' = clock w -> cached_fresh w' id = cached_fresh w id.
Proof. unfold cached_fresh. by intros -> ->. Qed.

Lemma price_handler_run up ip id w :
  price_handler up ip id w =
    match checkRateLimit ip w with
    | (Ret true, w1) =>
        match cached_fresh w1 id with
        | Some d => (Ret {| status := 200; body := RecordBody d |}, w1)
        | None =>
            match getCryptocurrencyData up id w1 with
            | (Ret d, w2) =>
                (Ret {| status := 200; body := RecordBody d |},
                 set_cache (<[id := {| data := d; timestamp := clock w2 |}]> (cache w2)) w2)
            | (Throw e, w2) => (Ret (price_error_response e), w2)
            end
        end
    | (Ret false, w1) => (Ret local_rate_limit_response, w1)
    | (Throw e, w1) => (Ret (price_error_response e), w1)
    end.
Proof.
  unfold price_handler. rewrite try_catch_run, bind_run.
  destruct (checkRateLimit ip w) as [[[|]|e] w1]; cbn [negb].
  - rewrite bind_run, getCachedData_run.
    destruct (cached_fresh w1 id) as [d|]; [reflexivity |].
    rewrite bind_run.
    destruct (getCryptocurrencyData up id w1) as [[d|e] w2].
    + reflexivity.
    + apply price_handler_catch_run.
  - reflexivity.
  - apply price_handler_catch_run.
Qed.

Lemma prices_handler_run up ip ids w :
  prices_handler up ip ids w =
    match checkRateLimit ip w with
    | (Ret true, w1) =>
        let cachedResults := hits w1 ∅ (coinIds ids) in
        let missingIds := misses w1 (coinIds ids) in
        if (0 <? length missingIds)%nat then
          match getMultipleCryptocurrencyData up missingIds w1 with
          | (Ret freshResults, w2) =>
              match foldM (λ _ (kv : string * PriceRecord), setCachedData kv.1 kv.2) tt
                          (map_to_list freshResults) w2 with
              | (Ret _, w3) =>
                  (Ret {| status := 200; body := MapBody (freshResults ∪ cachedResults) |}, w3)
              | (Throw e, w3) => (Ret internal_error_response, w3)
              end
          | (Throw e, w2) => (Ret internal_error_response, w2)
          end
        else (Ret {| status := 200; body := MapBody (∅ ∪ cachedResults) |}, w1)
    | (Ret false, w1) => (Ret local_rate_limit_response, w1)
    | (Throw e, w1) => (Ret internal_error_response, w1)
    end.
Proof.
  unfold prices_handler. rewrite try_catch_run, bind_run.
  destruct (checkRateLimit ip w) as [[[|]|e] w1]; cbn [negb]; [| reflexivity..].
  rewrite bind_run, partition_cached_run. cbv zeta. rewrite bind_run.
  destruct (0 <? length (misses w1 (coinIds ids)))%nat; [| reflexivity].
  rewrite !bind_run.
  destruct (getMultipleCryptocurrencyData up (misses w1 (coinIds ids)) w1)
    as [[fresh|e] w2]; [| reflexivity].
  rewrite bind_run.
  destruct (foldM _ tt (map_to_list fresh) w2) as [[[]|e] w3]; reflexivity.
Qed.

Lemma hits_misses_frame w w1 ids :
  cache w1 = cache w -> clock w1 = clock w ->
  hits w1 ∅ ids = hits w ∅ ids ∧ misses w1 ids = misses w ids.
Proof.
  intros Hc Hk. split.
  - apply map_eq. intros id. rewrite !hits_lookup.
    by rewrite (cached_fresh_ext w w1 id Hc Hk).
  - unfold misses. apply list_filter_iff. intros id.
    by rewrite (cached_fresh_ext w w1 id Hc Hk).
Qed.

(** The admitted bulk request, case by case. *)
Lemma prices_handler_admitted up ip ids w w1 :
  checkRateLimit ip w = (Ret true, w1) ->
  let missing := misses w (coinIds ids) in
  let cachedResults := hits w ∅ (coinIds ids) in
  match missing with
  | [] =>
      prices_handler up ip ids w =
        (Ret {| status := 200; body := MapBody (∅ ∪ cachedResults) |}, w1)
  | _ :: _ =>
      ∃ w',
        rateLimiter w' = rateLimiter w1
        ∧ calls w' =
            (calls w ++ SimplePrice (join "," missing) :: bulk_info_calls up missing)%list
        ∧ match fetched up missing with
          | None =>
              prices_handler up ip ids w = (Ret internal_error_response, w')
              ∧ cache w' = cache w
              ∧ ∃ e, (getMultipleCryptocurrencyData up missing w1).1 = Throw e
          | Some fresh =>
              prices_handler up ip ids w =
                (Ret {| status := 200; body := MapBody (fresh ∪ cachedResults) |}, w')
              ∧ (getMultipleCryptocurrencyData up missing w1).1 = Ret fresh
              ∧ ∀ k, cache w' !! k =
                       match fresh !! k with
                       | Some d => Some {| data := d; timestamp := clock w' |}
                       | None => cache w !! k
                       end
          end
  end.
Proof.
  intros Hadm. cbv zeta.
  destruct (checkRateLimit_frame _ _ _ _ Hadm) as (Hc & Hk & Hcalls).
  destruct (hits_misses_frame w w1 (coinIds ids) Hc Hk) as [Hh Hm].
  rewrite prices_handler_run, Hadm. cbv zeta. rewrite Hh, Hm.
  destruct (misses w (coinIds ids)) as [|m0 ms] eqn:Hmiss; [reflexivity |].
  cbn [length Nat.ltb Nat.leb].
  destruct (getMultipleCryptocurrencyData_run up (m0 :: ms) w1)
    as (o & w2 & Hrun & Ho & Hc2 & Hl2 & Hcalls2).
  rewrite Hrun. cbn [fst].
  destruct (fetched up (m0 :: ms)) as [fresh|].
  - subst o.
    destruct (cache_writes_run (map_to_list fresh) w2 (NoDup_fst_map_to_list _))
      as (w3 & Hw & Hl3 & Hk3 & Hcalls3 & Hc3).
    rewrite Hw. exists w3. split; [congruence |]. split; [congruence |].
    split; [reflexivity |]. split; [reflexivity |].
    intros k. rewrite Hc3, list_to_map_to_list, Hk3, Hc2, Hc. done.
  - destruct Ho as [e ->]. exists w2. split; [done |]. split; [congruence |].
    split; [reflexivity |]. split; [congruence |]. by exists e.
Qed.




(** C5 does not hold of the code for identifiers that name a member every
    object inherits.  The provider's price response [{}] has no
    [constructor], yet [priceResponse.data["constructor"]] is truthy: the bulk
    endpoint answers a [constructor] entry (built from the info fall-back,
    without a price) and caches it, and the single endpoint goes on to the
    info call, answering 408 when that call times out, where the claim says
    omitted and 404. *)
Theorem inherited_name_not_omitted :
  own_properties (parsed_object ∅) !! "constructor" = None
  ∧ (prices_handler provider_unknown "10.0.0.7" "constructor" (initial_world 1000)).1
    = Ret {| status := 200;
             body := MapBody {[ "constructor" := {| name := "constructor";
                                                     symbol := "CONSTRUCTOR";
                                                     price := None |} ]} |}
  ∧ (data <$> cache (prices_handler provider_unknown "10.0.0.7" "constructor"
                       (initial_world 1000)).2 !! "constructor")
    = Some {| name := "constructor"; symbol := "CONSTRUCTOR"; price := None |}
  ∧ calls (price_handler provider_empty_slow "10.0.0.7" "constructor" (initial_world 1000)).2
    = [SimplePrice "constructor"; CoinInfoCall "constructor"]
  ∧ (price_handler provider_empty_slow "10.0.0.7" "constructor" (initial_world 1000)).1
    = Ret timeout_response.
Proof. repeat split; vm_compute; reflexivity. Qed.



Lemma price_error_response_cases e :
  ∃ f, price_error_response e = failure_response f.
Proof.
  unfold price_error_response.
  destruct (String.eqb _ _); [by exists NotFound |].
  destruct (String.eqb _ _); [by exists UpstreamRateLimited |].
  destruct (String.eqb _ _); [by exists Timeout |].
  by exists OtherFailure.
Qed.

(** C6 does not hold of the code.  When the provider answers the price call
    with a body that is not JSON, the payload is that body as a string,
    looking the identifier up in it finds nothing, and the request is
    answered 404 "Cryptocurrency not found", where the claim (and the test
    "should handle invalid JSON responses") says 500 "Internal server
    error". *)
Theorem invalid_json_answered_not_found :
  member (unparsed_text "invalid json") "bitcoin" = None
  ∧ (price_handler provider_invalid_json "10.0.0.7" "bitcoin" (initial_world 1000)).1
    = Ret not_found_response
  ∧ status not_found_response = 404
  ∧ calls (price_handler provider_invalid_json "10.0.0.7" "bitcoin" (initial_world 1000)).2
    = [SimplePrice "bitcoin"].
Proof. repeat split; vm_compute; reflexivity. Qed.

(** X19. Every answer of [GET /price/:id] is either 200 with a record or one
    of five fixed error objects: 404 "Cryptocurrency not found", 429 "Rate
    limit exceeded" (two wordings of the message, for the provider's limit and
    for the local limiter), 408 "Request timeout", 500 "Internal server
    error".  Nothing of the provider's error reaches the body. *)
Theorem single_answers_fixed (up : Upstream) (ip id : string) (w : World) :
  let resp := (price_handler up ip id w).1 in
  ((∃ d, resp = Ret {| status := 200; body := RecordBody d |})
   ∨ ∃ f, resp = Ret (failure_response f))
  ∧ (∀ f, ∃ msg,
       failure_response f =
         match f with
         | NotFound => {| status := 404; body := ErrorBody "Cryptocurrency not found" msg |}
         | UpstreamRateLimited | LocalRateLimited =>
             {| status := 429; body := ErrorBody "Rate limit exceeded" msg |}
         | Timeout => {| status := 408; body := ErrorBody "Request timeout" msg |}
         | OtherFailure => {| status := 500; body := ErrorBody "Internal server error" msg |}
         end).
Proof.
  cbv zeta. rewrite price_handler_run.
  split; [| intros []; eexists; reflexivity].
  destruct (checkRateLimit_cases ip w) as [[_ Hadm]|[_ Hrej]].
  2:{ rewrite Hrej. cbn [fst]. right. by exists LocalRateLimited. }
  rewrite Hadm.
  destruct (cached_fresh _ id) as [d|]; [left; by exists d |].
  destruct (getCryptocurrencyData up id _) as [[d|e] w2]; cbn [fst].
  - left. by exists d.
  - right. destruct (price_error_response_cases e) as [f ->]. by exists f.
Qed.




(** Bulk fetch: a failed info call falls back to the identifier. *)
Lemma bulk_metadata_fallback up ids id w own chain entry e :
  outcome (simple_price up (join "," ids)) = inr (Data own chain) ->
  id ∈ ids -> id ≠ "__proto__" -> own !! id = Some (JsEntry entry) ->
  outcome (coins up id) = inl e ->
  ∃ m, (getMultipleCryptocurrencyData up ids w).1 = Ret m
       ∧ m !! id = Some {| name := id; symbol := toUpperCase id; price := usd entry |}.
Proof.
  intros Hp Hin Hproto Hid He.
  destruct (getMultipleCryptocurrencyData_run up ids w)
    as (o & w2 & -> & Hfetch & _).
  unfold fetched in Hfetch. rewrite Hp in Hfetch. subst o.
  eexists. split; [reflexivity |].
  rewrite combined_lookup, decide_True by done. cbn [member]. rewrite Hid.
  cbn [is_truthy]. unfold bulk_record, info_result. by rewrite He.
Qed.

(** Single fetch: a failed info call fails the fetch, whatever the price. *)
Lemma single_metadata_failure up id w d e :
  outcome (simple_price up id) = inr d ->
  is_truthy (member d id) = true ->
  outcome (coins up id) = inl e ->
  (getCryptocurrencyData up id w).1 = Throw (rethrown e).
Proof.
  intros Hp Hid He. rewrite getCryptocurrencyData_run. cbv zeta.
  rewrite Hp. destruct d as [|own chain]; [done |]. by rewrite Hid, He.
Qed.

(** C1 does not hold of the single fetch.  With the price call answering
    [{bitcoin: {usd: 45000.5}}] and the info call failing with a network
    error, the bulk fetch returns the fall-back record for bitcoin, but the
    single fetch raises the network error and the handler answers 500. *)
Theorem single_fetch_has_no_fallback :
  (getMultipleCryptocurrencyData provider_info_down ["bitcoin"] (initial_world 1000)).1
    = Ret {[ "bitcoin" := {| name := "bitcoin"; symbol := "BITCOIN";
                             price := Some (90001 # 2) |} ]}
  ∧ (getCryptocurrencyData provider_info_down "bitcoin" (initial_world 1000)).1
    = Throw {| message := "Network Error"; response_status := None;
               code := Some "ERR_NETWORK" |}
  ∧ (price_handler provider_info_down "10.0.0.7" "bitcoin" (initial_world 1000)).1
    = Ret internal_error_response.
Proof. repeat split; vm_compute; reflexivity. Qed.

(** ** The rate window shared by both endpoints *)

Lemma price_error_response_not_local e :
  is_local_rejection (price_error_response e) = false.
Proof.
  unfold price_error_response.
  repeat (destruct (String.eqb (message e) _); [reflexivity |]). reflexivity.
Qed.

Lemma getCryptocurrencyData_rateLimiter up id w :
  rateLimiter (getCryptocurrencyData up id w).2 = rateLimiter w.
Proof.
  rewrite getCryptocurrencyData_run. cbv zeta.
  destruct (outcome (simple_price up id)) as [e|[|own chain]]; [done.. |].
  destruct (is_truthy _); [| done].
  destruct (outcome (coins up id)) as [e|i]; [done |].
  by destruct (info_symbol i).
Qed.

(** Whatever the endpoint and however many identifiers a bulk request
    carries, a handler touches the limiter through its single
    [checkRateLimit] call only. *)
Lemma handler_rate r w0 :
  (checkRateLimit (client r) w0 = (Ret false, w0)
   ∧ handler r w0 = (Ret local_rate_limit_response, w0))
  ∨ (∃ w1 resp w',
       checkRateLimit (client r) w0 = (Ret true, w1)
       ∧ handler r w0 = (Ret resp, w')
       ∧ rateLimiter w' = rateLimiter w1
       ∧ is_local_rejection resp = false).
Proof.
  unfold handler.
  destruct (checkRateLimit_cases (client r) w0) as [[_ Hadm]|[_ Hrej]].
  2:{ left. split; [done |].
      destruct (target r); [rewrite price_handler_run | rewrite prices_handler_run];
        by rewrite Hrej. }
  right. eexists. destruct (target r) as [id|ids].
  - rewrite price_handler_run, Hadm.
    destruct (cached_fresh _ id) as [d|].
    { eexists _, _. repeat split; done. }
    pose proof (getCryptocurrencyData_rateLimiter (provider r) id
                  (set_rateLimiter
                     (<[client r:=(recent (clock w0) (client r) (rateLimiter w0) ++ [clock w0])%list]>
                        (rateLimiter w0)) w0)) as Hl.
    destruct (getCryptocurrencyData _ id _) as [[d|e] w2]; cbn [snd] in Hl.
    + eexists _, _. repeat split; done.
    + eexists _, _. split; [done |]. split; [done |]. split; [done |].
      apply price_error_response_not_local.
  - pose proof (prices_handler_admitted (provider r) (client r) ids w0 _ Hadm) as Hrun.
    cbv zeta in Hrun.
    destruct (misses w0 (coinIds ids)) as [|m0 ms].
    { rewrite Hrun. eexists _, _. repeat split; done. }
    destruct Hrun as (w' & Hl & _ & Hrun).
    destruct (fetched (provider r) (m0 :: ms)); destruct Hrun as (-> & _);
      eexists _, _; repeat split; done.
Qed.

Lemma serve_rate r w :
  let a := arrival r in
  let rl := rateLimiter w in
  ((MAX_REQUESTS_PER_MINUTE <= length (recent a (client r) rl))%nat
   ∧ rateLimiter (serve r w).2 = rl
   ∧ is_local_rejection (serve r w).1 = true)
  ∨ ((length (recent a (client r) rl) < MAX_REQUESTS_PER_MINUTE)%nat
     ∧ rateLimiter (serve r w).2 = <[client r := (recent a (client r) rl ++ [a])%list]> rl
     ∧ is_local_rejection (serve r w).1 = false).
Proof.
  cbv zeta. unfold serve.
  destruct (checkRateLimit_cases (client r) (set_clock (arrival r) w)) as [[Hlen Hadm]|[Hlen Hrej]];
    destruct (handler_rate r (set_clock (arrival r) w))
      as [[Hc Hh]|(w1 & resp & w' & Hc & Hh & Hl & Hresp)];
    try congruence.
  - right. rewrite Hh. cbn [fst snd]. split; [exact Hlen |]. split; [| done].
    rewrite Hl. rewrite Hadm in Hc. by injection Hc as <-.
  - left. rewrite Hh. cbn [fst snd]. split; [exact Hlen |]. done.
Qed.

Lemma admitted_times_snoc ip log r resp :
  admitted_times ip (log ++ [(r, resp)]) =
    (admitted_times ip log ++
       if decide (client r = ip ∧ is_local_rejection resp = false) then [arrival r] else [])%list.
Proof.
  unfold admitted_times. rewrite filter_app, fmap_app. f_equal.
  rewrite filter_cons, filter_nil. cbn [fst snd].
  by destruct (decide _).
Qed.

Lemma recent_insert_ne now ip c l (rl : gmap string (list Z)) :
  c ≠ ip -> recent now ip (<[c := l]> rl) = recent now ip rl.
Proof. intros Hne. unfold recent. by rewrite lookup_insert_ne. Qed.

Lemma recent_insert_eq now ip l (rl : gmap string (list Z)) :
  recent now ip (<[ip := l]> rl) = filter (λ t, now - RATE_LIMIT_WINDOW < t) l.
Proof. unfold recent. by rewrite lookup_insert_eq. Qed.

Lemma serve_step log r w :
  limiter_tracks log (rateLimiter w) ->
  window_bounded log ->
  (∀ rr, rr ∈ log -> arrival rr.1 <= arrival r) ->
  limiter_tracks (log ++ [(r, (serve r w).1)]) (rateLimiter (serve r w).2)
  ∧ window_bounded (log ++ [(r, (serve r w).1)]).
Proof.
  intros Htrack Hbound Hlast.
  pose proof (Htrack (client r) (arrival r) Hlast) as Hnow.
  destruct (serve_rate r w) as [(Hlen & Hrl & Hresp)|(Hlen & Hrl & Hresp)];
    cbv zeta in *; rewrite Hrl.
  - (* rejected: neither the limiter nor the history changes *)
    assert (Htimes : ∀ ip, admitted_times ip (log ++ [(r, (serve r w).1)])
                           = admitted_times ip log).
    { intros ip. rewrite admitted_times_snoc, decide_False, app_nil_r; [done |].
      intros [_ ?]. congruence. }
    split.
    + intros ip now Hle. rewrite Htimes. apply Htrack.
      intros rr Hrr. apply Hle. apply elem_of_app. by left.
    + intros ip T. unfold admitted_in_window. rewrite Htimes. apply Hbound.
  - (* admitted: the arrival time joins both *)
    split.
    + intros ip now Hle.
      assert (Ha : arrival r <= now).
      { apply (Hle (r, (serve r w).1)). apply elem_of_app. right. by left. }
      assert (Hle' : ∀ rr, rr ∈ log -> arrival rr.1 <= now).
      { intros rr Hrr. apply Hle. apply elem_of_app. by left. }
      rewrite admitted_times_snoc, filter_app.
      destruct (decide (client r = ip)) as [<-|Hne].
      * rewrite decide_True by done.
        rewrite recent_insert_eq, filter_app, Hnow. f_equal.
        apply list_filter_filter_l. intros t. lia.
      * rewrite decide_False by tauto.
        rewrite recent_insert_ne by done. rewrite filter_nil, app_nil_r.
        by apply Htrack.
    + intros ip T. unfold admitted_in_window.
      rewrite admitted_times_snoc, filter_app, length_app.
      destruct (decide (client r = ip ∧ is_local_rejection (serve r w).1 = false))
        as [[<- _]|_].
      2:{ rewrite filter_nil. cbn [length]. rewrite Nat.add_0_r. apply Hbound. }
      rewrite filter_cons, filter_nil.
      destruct (decide (T - RATE_LIMIT_WINDOW < arrival r ∧ arrival r <= T)) as [[H1 H2]|_].
      2:{ cbn [length]. rewrite Nat.add_0_r. apply Hbound. }
      cbn [length].
      assert (Nat.le (length (filter (λ t, T - RATE_LIMIT_WINDOW < t ∧ t <= T)
                                (admitted_times (client r) log)))
                     (length (recent (arrival r) (client r) (rateLimiter w)))); [| lia].
      rewrite Hnow.
      rewrite <- (list_filter_filter_l
                    (λ t, T - RATE_LIMIT_WINDOW < t ∧ t <= T)
                    (λ t, arrival r - RATE_LIMIT_WINDOW < t)) by (intros t; lia).
      apply length_filter.
Qed.

Lemma serve_all_invariant rs : ∀ log w,
  StronglySorted Z.le (arrival <$> rs) ->
  (∀ rr r, rr ∈ log -> r ∈ rs -> arrival rr.1 <= arrival r) ->
  limiter_tracks log (rateLimiter w) ->
  window_bounded log ->
  limiter_tracks (log ++ (serve_all rs w).1) (rateLimiter (serve_all rs w).2)
  ∧ window_bounded (log ++ (serve_all rs w).1).
Proof.
  induction rs as [|r rs IH]; intros log w Hsorted Hlog Htrack Hbound; cbn [serve_all].
  - cbn [fst snd]. by rewrite app_nil_r.
  - destruct (serve r w) as [resp w1] eqn:Hserve.
    destruct (serve_all rs w1) as [out w2] eqn:Hrest. cbn [fst snd].
    cbn [fmap list_fmap] in Hsorted. apply StronglySorted_inv in Hsorted as [Hs Hall].
    destruct (serve_step log r w Htrack Hbound) as [Htrack1 Hbound1].
    { intros rr Hrr. apply Hlog; [done | by left]. }
    rewrite Hserve in Htrack1, Hbound1. cbn [fst snd] in Htrack1, Hbound1.
    specialize (IH (log ++ [(r, resp)])%list w1 Hs).
    rewrite Hrest in IH. cbn [fst snd] in IH.
    rewrite <- app_assoc in IH. apply IH; [| done | done].
    intros rr r' [Hrr|Hrr]%elem_of_app Hr'.
    + apply Hlog; [done | by right].
    + apply list_elem_of_singleton in Hrr as ->. cbn [fst].
      rewrite Forall_forall in Hall. apply Hall.
      apply list_elem_of_fmap. by exists r'.
Qed.

(** C10. Both endpoints draw on the one window kept per client address.
    Served from a fresh start in order of arrival, the requests of a client
    admitted within any trailing minute (the instants [t] with
    [T - RATE_LIMIT_WINDOW < t <= T]), counted over both endpoints together,
    never exceed 50; and whatever its endpoint and however many
    identifiers it carries, a request acts on the limiter as exactly one
    [checkRateLimit] call for its client: when admitted, exactly its one
    arrival time is appended to the client's window. *)
Theorem shared_rate_window (rs : list Request) (t0 : Z) :
  StronglySorted Z.le (arrival <$> rs) ->
  (∀ ip T, (admitted_in_window ip T (serve_all rs (initial_world t0)).1 <= 50)%nat)
  ∧ (∀ r w,
       let check := checkRateLimit (client r) (set_clock (arrival r) w) in
       rateLimiter (serve r w).2 = rateLimiter check.2
       ∧ (is_local_rejection (serve r w).1 = false <-> check.1 = Ret true)
       ∧ (check.1 = Ret true ->
          rateLimiter (serve r w).2 !! client r =
            Some (recent (arrival r) (client r) (rateLimiter w) ++ [arrival r])%list)).
Proof.
  intros Hsorted. split.
  - destruct (serve_all_invariant rs [] (initial_world t0) Hsorted) as [_ Hb].
    + intros rr r Hrr. by apply not_elem_of_nil in Hrr.
    + intros ip now _. unfold recent, admitted_times. cbn [initial_world rateLimiter].
      by rewrite lookup_empty.
    + intros ip T. unfold admitted_in_window, admitted_times.
      rewrite filter_nil. cbn. unfold MAX_REQUESTS_PER_MINUTE. lia.
    + rewrite app_nil_l in Hb. exact Hb.
  - intros r w. cbv zeta.
    destruct (serve_rate r w) as [(Hlen & Hrl & Hresp)|(Hlen & Hrl & Hresp)];
      cbv zeta in *.
    + rewrite (checkRateLimit_reject (client r) (set_clock (arrival r) w)) by exact Hlen.
      cbn [fst snd]. rewrite Hrl, Hresp. repeat split; try done.
    + rewrite (checkRateLimit_admit (client r) (set_clock (arrival r) w)) by exact Hlen.
      cbn [fst snd]. rewrite Hrl, Hresp. cbn [set_clock set_rateLimiter rateLimiter clock].
      repeat split; try done. intros _. apply lookup_insert_eq.
Qed.

Lemma shared_rate_window_witness :
  (admitted_in_window "10.0.0.7" 2000 (serve_all demo_requests (initial_world 0)).1 <= 50)%nat.
Proof.
  apply (proj1 (shared_rate_window demo_requests 0
                  ltac:(cbn; repeat constructor; lia))).
Defined.

(** * Further properties of the code *)

(** ** Rate limiter across requests *)

Lemma filter_none {A} (P : A -> Prop) `{∀ x, Decision (P x)} (l : list A) :
  (∀ x, x ∈ l -> ¬ P x) -> filter P l = [].
Proof.
  induction l as [|x l IH]; intros Hl; [done |].
  rewrite filter_cons, decide_False by (apply Hl; by left).
  apply IH. intros y Hy. apply Hl. by right.
Qed.

Lemma serve_all_requests rs : ∀ w, (serve_all rs w).1.*1 = rs.
Proof.
  induction rs as [|r rs IH]; intros w; cbn [serve_all]; [done |].
  destruct (serve r w) as [resp w1]. specialize (IH w1).
  destruct (serve_all rs w1) as [out w2]. cbn [fst snd] in *.
  cbn. by rewrite IH.
Qed.

(** After a run from a fresh start, the stored windows agree with the
    history of admissions. *)
Lemma serve_all_tracks rs t0 :
  StronglySorted Z.le (arrival <$> rs) ->
  limiter_tracks (serve_all rs (initial_world t0)).1
                 (rateLimiter (serve_all rs (initial_world t0)).2).
Proof.
  intros Hsorted.
  destruct (serve_all_invariant rs [] (initial_world t0) Hsorted) as [Ht _].
  - intros rr r Hrr. by apply not_elem_of_nil in Hrr.
  - intros ip now _. unfold recent, admitted_times. cbn [initial_world rateLimiter].
    by rewrite lookup_empty.
  - intros ip T. unfold admitted_in_window, admitted_times.
    rewrite filter_nil. cbn. unfold MAX_REQUESTS_PER_MINUTE. lia.
  - by rewrite app_nil_l in Ht.
Qed.

(** Whether the next request is turned away, in terms of the history. *)
Lemma next_request_admission rs r t0 :
  StronglySorted Z.le (arrival <$> rs) ->
  (∀ r', r' ∈ rs -> arrival r' <= arrival r) ->
  let log := (serve_all rs (initial_world t0)).1 in
  let w := (serve_all rs (initial_world t0)).2 in
  is_local_rejection (serve r w).1 =
    bool_decide (MAX_REQUESTS_PER_MINUTE <=
                 length (filter (λ t, (arrival r - RATE_LIMIT_WINDOW < t)%Z)
                                (admitted_times (client r) log)))%nat.
Proof.
  intros Hsorted Hlast. cbv zeta.
  pose proof (serve_all_tracks rs t0 Hsorted (client r) (arrival r)) as Htrack.
  rewrite <- Htrack.
  2:{ intros rr Hrr. apply Hlast. rewrite <- (serve_all_requests rs (initial_world t0)).
      apply list_elem_of_fmap. by exists rr. }
  destruct (serve_rate r (serve_all rs (initial_world t0)).2)
    as [(Hlen & _ & ->)|(Hlen & _ & ->)]; cbv zeta in Hlen.
  - by rewrite bool_decide_eq_true_2.
  - rewrite bool_decide_eq_false_2; [done | lia].
Qed.

(** X1. A rate-limit check touches nothing but the window of the client it
    is made for: the windows of all other clients, the cache, the clock and
    the trace of outbound calls are as before. *)
Theorem checkRateLimit_only_own_window (ip : string) (w : World) :
  delete ip (rateLimiter (checkRateLimit ip w).2) = delete ip (rateLimiter w)
  ∧ cache (checkRateLimit ip w).2 = cache w
  ∧ clock (checkRateLimit ip w).2 = clock w
  ∧ calls (checkRateLimit ip w).2 = calls w.
Proof.
  destruct (checkRateLimit_cases ip w) as [[_ ->]|[_ ->]]; cbn [snd].
  - cbn [set_rateLimiter rateLimiter cache clock calls].
    by rewrite delete_insert_eq.
  - done.
Qed.

(** X2. In a run served from a fresh start in order of arrival, a request is
    turned away by the limiter exactly when 50 or more earlier admitted
    requests of the same client, on either endpoint, arrived less than
    [RATE_LIMIT_WINDOW] before it; requests of other clients and rejected
    requests do not count. *)
Theorem admission_exact (rs : list Request) (r : Request) (t0 : Z) :
  StronglySorted Z.le (arrival <$> rs) ->
  (∀ r', r' ∈ rs -> arrival r' <= arrival r) ->
  let log := (serve_all rs (initial_world t0)).1 in
  let w := (serve_all rs (initial_world t0)).2 in
  (serve r w).1 = local_rate_limit_response <->
  (50 <= length (filter (λ t, (arrival r - RATE_LIMIT_WINDOW < t)%Z)
                        (admitted_times (client r) log)))%nat.
Proof.
  intros Hsorted Hlast. cbv zeta.
  pose proof (next_request_admission rs r t0 Hsorted Hlast) as Hadm. cbv zeta in Hadm.
  change 50%nat with MAX_REQUESTS_PER_MINUTE.
  split.
  - intros Hresp. rewrite Hresp in Hadm. symmetry in Hadm.
    by apply bool_decide_eq_true_1 in Hadm.
  - intros Hlen. rewrite bool_decide_eq_true_2 in Hadm by done.
    unfold serve in *.
    destruct (handler_rate r (set_clock (arrival r) (serve_all rs (initial_world t0)).2))
      as [[_ Hh]|(w1 & resp & w' & _ & Hh & _ & Hresp)]; rewrite Hh in *; cbn [fst] in *.
    + done.
    + congruence.
Qed.

Lemma admission_exact_witness :
  (serve spaced_last (serve_all spaced_requests (initial_world 0)).2).1
    = local_rate_limit_response <->
  (50 <= length (filter (λ t, (arrival spaced_last - RATE_LIMIT_WINDOW < t)%Z)
                        (admitted_times (client spaced_last)
                           (serve_all spaced_requests (initial_world 0)).1)))%nat.
Proof.
  apply (admission_exact spaced_requests spaced_last 0).
  - cbn. repeat constructor; lia.
  - intros r' Hr'. apply list_elem_of_In in Hr'. cbn in Hr'.
    destruct Hr' as [<-|[<-|[]]]; cbn; lia.
Defined.

(** X3. A client whose requests are spaced at least [RATE_LIMIT_WINDOW]
    apart is never turned away by the limiter, whatever the other clients
    do. *)
Theorem spaced_requests_never_rejected (rs : list Request) (r : Request) (t0 : Z) :
  StronglySorted Z.le (arrival <$> rs) ->
  (∀ r', r' ∈ rs -> arrival r' <= arrival r) ->
  (∀ r', r' ∈ rs -> client r' = client r ->
         arrival r' + RATE_LIMIT_WINDOW <= arrival r) ->
  is_local_rejection (serve r (serve_all rs (initial_world t0)).2).1 = false.
Proof.
  intros Hsorted Hlast Hspaced.
  pose proof (next_request_admission rs r t0 Hsorted Hlast) as Hadm. cbv zeta in Hadm.
  rewrite Hadm. apply bool_decide_eq_false_2.
  assert (Hnil : filter (λ t, (arrival r - RATE_LIMIT_WINDOW < t)%Z)
                   (admitted_times (client r) (serve_all rs (initial_world t0)).1) = []).
  { apply filter_none. intros t Ht.
    unfold admitted_times in Ht.
    apply list_elem_of_fmap in Ht as (rr & -> & Hrr).
    apply list_elem_of_filter in Hrr as [[Hc _] Hrr].
    assert (Hin : rr.1 ∈ rs).
    { rewrite <- (serve_all_requests rs (initial_world t0)).
      apply list_elem_of_fmap. by exists rr. }
    specialize (Hspaced _ Hin Hc). lia. }
  rewrite Hnil. cbn. unfold MAX_REQUESTS_PER_MINUTE. lia.
Qed.

Lemma spaced_requests_never_rejected_witness :
  is_local_rejection
    (serve spaced_last (serve_all spaced_requests (initial_world 0)).2).1 = false.
Proof.
  apply (spaced_requests_never_rejected spaced_requests spaced_last 0).
  - cbn. repeat constructor; lia.
  - intros r' Hr'. apply list_elem_of_In in Hr'. cbn in Hr'.
    destruct Hr' as [<-|[<-|[]]]; cbn; lia.
  - intros r' Hr'. apply list_elem_of_In in Hr'. cbn in Hr'.
    destruct Hr' as [<-|[<-|[]]]; cbn; [unfold RATE_LIMIT_WINDOW; lia | discriminate].
Defined.

(** X4. However many requests are served, and in whatever order they
    arrive, no client's stored window ever holds more than 50 timestamps. *)
Theorem stored_windows_bounded (rs : list Request) (t0 : Z) :
  map_Forall (λ _ l, (length l <= 50)%nat)
             (rateLimiter (serve_all rs (initial_world t0)).2).
Proof.
  assert (Hgen : ∀ w, map_Forall (λ _ l, (length l <= 50)%nat) (rateLimiter w) ->
                      map_Forall (λ _ l, (length l <= 50)%nat)
                                 (rateLimiter (serve_all rs w).2)).
  { induction rs as [|r rs IH]; intros w Hw; cbn [serve_all]; [done |].
    destruct (serve r w) as [resp w1] eqn:Hserve.
    specialize (IH w1). destruct (serve_all rs w1) as [out w2]. cbn [snd] in *.
    apply IH.
    destruct (serve_rate r w) as [(_ & Hrl & _)|(Hlen & Hrl & _)];
      cbv zeta in *; rewrite Hserve in Hrl; cbn [snd] in Hrl; rewrite Hrl; [done |].
    apply map_Forall_insert_2; [| done].
    rewrite length_app. cbn. unfold MAX_REQUESTS_PER_MINUTE in Hlen. lia. }
  apply Hgen. cbn. apply map_Forall_empty.
Qed.

(** X16. A request turned away by the limiter has no effect at all: no
    cache read or write, no outbound call, no timestamp recorded, even when
    the record asked for is in the cache.  The state after it is the state at
    its arrival. *)
Theorem rejected_request_short_circuits (r : Request) (w : World) :
  (checkRateLimit (client r) (set_clock (arrival r) w)).1 = Ret false ->
  serve r w = (local_rate_limit_response, set_clock (arrival r) w).
Proof.
  intros Hrej. unfold serve.
  destruct (handler_rate r (set_clock (arrival r) w))
    as [[_ Hh]|(w1 & resp & w' & Hc & _)].
  - by rewrite Hh.
  - rewrite Hc in Hrej. discriminate.
Qed.

Lemma rejected_request_short_circuits_witness :
  serve burst_request (burst_world 0) = (local_rate_limit_response, burst_world 2000).
Proof.
  apply (rejected_request_short_circuits burst_request (burst_world 0)).
  vm_compute. reflexivity.
Defined.

(** ** Cache and handlers *)

Lemma price_error_response_status e : status (price_error_response e) ≠ 200.
Proof.
  unfold price_error_response.
  repeat (destruct (String.eqb (message e) _); [discriminate |]). discriminate.
Qed.

Lemma getCryptocurrencyData_frame up id w :
  cache (getCryptocurrencyData up id w).2 = cache w
  ∧ calls (getCryptocurrencyData up id w).2
    = (calls w ++ SimplePrice id :: single_info_calls up id)%list.
Proof.
  rewrite getCryptocurrencyData_run. cbv zeta. unfold single_info_calls.
  destruct (outcome (simple_price up id)) as [e|[|own chain]]; [done.. |].
  destruct (is_truthy (member (Data own chain) id)); [| done].
  assert (∀ o : Outcome PriceRecord,
            cache (o, after_info up id
                        (set_clock (clock (after_price up id w) + 200)
                           (after_price up id w))).2 = cache w
            ∧ calls (o, after_info up id
                          (set_clock (clock (after_price up id w) + 200)
                             (after_price up id w))).2
              = (calls w ++ [SimplePrice id; CoinInfoCall id])%list) as Hw.
  { intros o. cbn. by rewrite <- app_assoc. }
  destruct (outcome (coins up id)) as [e|i]; [apply Hw |].
  destruct (info_symbol i); apply Hw.
Qed.

Lemma price_handler_admitted up ip id w w1 :
  checkRateLimit ip w = (Ret true, w1) ->
  price_handler up ip id w =
    match cached_fresh w id with
    | Some d => (Ret {| status := 200; body := RecordBody d |}, w1)
    | None =>
        match getCryptocurrencyData up id w1 with
        | (Ret d, w2) =>
            (Ret {| status := 200; body := RecordBody d |},
             set_cache (<[id := {| data := d; timestamp := clock w2 |}]> (cache w2)) w2)
        | (Throw e, w2) => (Ret (price_error_response e), w2)
        end
    end.
Proof.
  intros Hadm. rewrite price_handler_run, Hadm.
  destruct (checkRateLimit_frame _ _ _ _ Hadm) as (Hc & Hk & _).
  by rewrite (cached_fresh_ext w w1 id Hc Hk).
Qed.

(** X5. A record written to the cache is read back under its key for as
    long as less than [CACHE_DURATION] has passed since the write, and not
    afterwards; reads of every other key are unaffected by the write. *)
Theorem cache_write_then_read (id : string) (d : PriceRecord) (w : World) (t : Z) :
  let w1 := set_clock t (setCachedData id d w).2 in
  (getCachedData id w1).1
    = Ret (if bool_decide (t - clock w < CACHE_DURATION) then Some d else None)
  ∧ ∀ id', id' ≠ id -> (getCachedData id' w1).1 = (getCachedData id' (set_clock t w)).1.
Proof.
  cbv zeta. split.
  - rewrite getCachedData_run. unfold cached_fresh, setCachedData.
    cbn [fst snd set_clock set_cache cache clock]. rewrite lookup_insert_eq.
    cbn [timestamp data].
    destruct (Z.ltb_spec (t - clock w) CACHE_DURATION).
    + by rewrite bool_decide_eq_true_2.
    + rewrite bool_decide_eq_false_2; [done | lia].
  - intros id' Hne. rewrite !getCachedData_run. unfold cached_fresh, setCachedData.
    cbn [fst snd set_clock set_cache cache clock].
    rewrite lookup_insert_ne; [done | congruence].
Qed.

Lemma cache_write_then_read_witness :
  (getCachedData "cardano"
     (set_clock 200000
        (setCachedData "bitcoin" {| name := "Bitcoin"; symbol := "BTC"; price := None |}
           bitcoin_cached).2)).1
  = (getCachedData "cardano" (set_clock 200000 bitcoin_cached)).1.
Proof.
  apply (proj2 (cache_write_then_read "bitcoin"
                  {| name := "Bitcoin"; symbol := "BTC"; price := None |}
                  bitcoin_cached 200000)).
  discriminate.
Defined.

(** X6. When [GET /price/:id] answers 200 with a record, that record is in
    the cache at that moment; and in any state in which that cache entry is
    still in place (not overwritten by another fetch) and younger than
    [CACHE_DURATION], an admitted request for the same identifier gets the
    same record back without any outbound call or cache write. *)
Theorem repeat_served_from_cache (up : Upstream) (ip id : string) (w w1 : World)
    (d : PriceRecord) :
  price_handler up ip id w = (Ret {| status := 200; body := RecordBody d |}, w1) ->
  ∃ e, cache w1 !! id = Some e ∧ data e = d
       ∧ ∀ up2 ip2 w' w2,
           cache w' !! id = Some e ->
           clock w' - timestamp e < CACHE_DURATION ->
           checkRateLimit ip2 w' = (Ret true, w2) ->
           price_handler up2 ip2 id w'
             = (Ret {| status := 200; body := RecordBody d |}, w2).
Proof.
  intros Hrun.
  assert (Hentry : ∃ e, cache w1 !! id = Some e ∧ data e = d).
  { destruct (checkRateLimit_cases ip w) as [[_ Hadm]|[_ Hrej]].
    2:{ rewrite price_handler_run, Hrej in Hrun. discriminate. }
    rewrite (price_handler_admitted _ _ _ _ _ Hadm) in Hrun.
    destruct (cached_fresh w id) as [d0|] eqn:Hfresh.
    - injection Hrun as <- <-. unfold cached_fresh in Hfresh.
      cbn [set_rateLimiter cache].
      destruct (cache w !! id) as [e|]; [| done].
      destruct (clock w - timestamp e <? CACHE_DURATION); [| done].
      injection Hfresh as <-. by exists e.
    - destruct (getCryptocurrencyData up id _) as [[d0|e] w2].
      + injection Hrun as <- <-. eexists. cbn [set_cache cache].
        split; [apply lookup_insert_eq | done].
      + injection Hrun as Hresp _.
        pose proof (price_error_response_status e) as Hs.
        rewrite Hresp in Hs. done. }
  destruct Hentry as (e & He & Hd). exists e. split; [done |]. split; [done |].
  intros up2 ip2 w' w2 Hstill Hyoung Hadm.
  rewrite (price_handler_admitted _ _ _ _ _ Hadm).
  unfold cached_fresh. rewrite Hstill.
  destruct (Z.ltb_spec (clock w' - timestamp e) CACHE_DURATION); [by rewrite Hd | lia].
Qed.

Lemma repeat_served_from_cache_witness :
  (price_handler provider_timeout "10.0.0.8" "bitcoin"
     (set_clock 250000
        (price_handler provider_ok "10.0.0.7" "bitcoin" (initial_world 1000)).2)).1
  = Ret {| status := 200;
           body := RecordBody {| name := "bitcoin"; symbol := "BITCOIN";
                                 price := Some (90001 # 2) |} |}.
Proof.
  destruct (repeat_served_from_cache provider_ok "10.0.0.7" "bitcoin" (initial_world 1000)
              (price_handler provider_ok "10.0.0.7" "bitcoin" (initial_world 1000)).2
              {| name := "bitcoin"; symbol := "BITCOIN"; price := Some (90001 # 2) |})
    as (e & He & Hd & Hlater); [vm_compute; reflexivity |].
  assert (Hstored :
            cache (price_handler provider_ok "10.0.0.7" "bitcoin" (initial_world 1000)).2
              !! "bitcoin"
            = Some {| data := {| name := "bitcoin"; symbol := "BITCOIN";
                                 price := Some (90001 # 2) |};
                      timestamp := 1400 |})
    by (vm_compute; reflexivity).
  rewrite Hstored in He. injection He as <-.
  rewrite (Hlater provider_timeout "10.0.0.8"
             (set_clock 250000
                (price_handler provider_ok "10.0.0.7" "bitcoin" (initial_world 1000)).2)
             (checkRateLimit "10.0.0.8"
                (set_clock 250000
                   (price_handler provider_ok "10.0.0.7" "bitcoin"
                      (initial_world 1000)).2)).2).
  - reflexivity.
  - exact Hstored.
  - vm_compute. reflexivity.
  - vm_compute. reflexivity.
Defined.

(** X7. An admitted [GET /price/:id] makes no outbound call when the cache
    has a fresh entry.  Otherwise (no entry, or a stale one) it makes exactly
    one price call for the identifier, followed by exactly one info call when
    the lookup [priceResponse.data[id]] finds a truthy value (an own property
    of the payload, or an inherited member such as [constructor]), and by
    none when it finds nothing, the payload is [null], or the price call
    failed. *)
Theorem single_request_calls (up : Upstream) (ip id : string) (w w1 : World) :
  checkRateLimit ip w = (Ret true, w1) ->
  calls (price_handler up ip id w).2 =
    match cached_fresh w id with
    | Some _ => calls w
    | None => (calls w ++ SimplePrice id :: single_info_calls up id)%list
    end.
Proof.
  intros Hadm. rewrite (price_handler_admitted _ _ _ _ _ Hadm).
  destruct (checkRateLimit_frame _ _ _ _ Hadm) as (_ & _ & Hcalls).
  destruct (cached_fresh w id); [done |].
  destruct (getCryptocurrencyData_frame up id w1) as [_ Hc].
  destruct (getCryptocurrencyData up id w1) as [[d|e] w2]; cbn [snd] in *;
    cbn [set_cache calls]; by rewrite Hc, Hcalls.
Qed.

Lemma single_request_calls_witness :
  calls (price_handler provider_unknown "10.0.0.7" "bitcoin" bitcoin_cached).2 = []
  ∧ calls (price_handler provider_unknown "10.0.0.7" "bitcoin"
             (set_clock 400000 bitcoin_cached)).2 = [SimplePrice "bitcoin"]
  ∧ calls (price_handler provider_unknown "10.0.0.7" "constructor" bitcoin_cached).2
    = [SimplePrice "constructor"; CoinInfoCall "constructor"].
Proof.
  split; [| split].
  - apply (single_request_calls provider_unknown "10.0.0.7" "bitcoin" bitcoin_cached
             (checkRateLimit "10.0.0.7" bitcoin_cached).2).
    vm_compute. reflexivity.
  - apply (single_request_calls provider_unknown "10.0.0.7" "bitcoin"
             (set_clock 400000 bitcoin_cached)
             (checkRateLimit "10.0.0.7" (set_clock 400000 bitcoin_cached)).2).
    vm_compute. reflexivity.
  - apply (single_request_calls provider_unknown "10.0.0.7" "constructor" bitcoin_cached
             (checkRateLimit "10.0.0.7" bitcoin_cached).2).
    vm_compute. reflexivity.
Defined.

(** Where the cache can differ after a request has been served. *)
Lemma serve_cache r w k :
  cache (serve r w).2 !! k = cache w !! k
  ∨ (k ∈ requested_ids r ∧ is_Some (cache (serve r w).2 !! k) ∧ status (serve r w).1 = 200).
Proof.
  unfold serve, handler, requested_ids.
  destruct (checkRateLimit_cases (client r) (set_clock (arrival r) w)) as [[_ Hadm]|[_ Hrej]].
  2:{ left. destruct (target r);
        [rewrite price_handler_run | rewrite prices_handler_run]; by rewrite Hrej. }
  destruct (target r) as [id|ids].
  - rewrite (price_handler_admitted _ _ _ _ _ Hadm).
    destruct (cached_fresh _ id); [by left |].
    destruct (getCryptocurrencyData_frame (provider r) id
                (set_rateLimiter
                   (<[client r:=(recent (clock (set_clock (arrival r) w)) (client r)
                                   (rateLimiter (set_clock (arrival r) w))
                                 ++ [clock (set_clock (arrival r) w)])%list]>
                      (rateLimiter (set_clock (arrival r) w)))
                   (set_clock (arrival r) w))) as [Hc _].
    destruct (getCryptocurrencyData _ id _) as [[d|e] w2]; cbn [fst snd] in *.
    + cbn [set_cache cache]. destruct (decide (k = id)) as [->|Hne].
      * right. rewrite lookup_insert_eq. split; [by left | by split].
      * left. rewrite lookup_insert_ne by congruence. by rewrite Hc.
    + left. by rewrite Hc.
  - pose proof (prices_handler_admitted (provider r) (client r) ids _ _ Hadm) as Hrun.
    cbv zeta in Hrun.
    destruct (misses (set_clock (arrival r) w) (coinIds ids)) as [|m0 ms] eqn:Hmiss.
    { rewrite Hrun. by left. }
    destruct Hrun as (w' & _ & _ & Hrun).
    destruct (fetched (provider r) (m0 :: ms)) as [fresh|] eqn:Hfetch.
    2:{ destruct Hrun as (-> & Hcache & _). left. cbn [snd]. by rewrite Hcache. }
    destruct Hrun as (-> & _ & Hcache). cbn [fst snd].
    rewrite Hcache.
    destruct (fresh !! k) as [d|] eqn:Hk; [| by left]. right. cbn.
    split; [| by split].
    destruct (fetched_keys _ _ _ k Hfetch) as [Hin _]; [by rewrite Hk |].
    rewrite <- Hmiss in Hin. by apply misses_elem in Hin as [? _].
Qed.

(** X8. A request that is not answered 200 leaves the cache exactly as it
    was: failures, of either endpoint, are never cached. *)
Theorem failures_are_not_cached (r : Request) (w : World) :
  status (serve r w).1 ≠ 200 -> cache (serve r w).2 = cache w.
Proof.
  intros Hstatus. apply map_eq. intros k.
  destruct (serve_cache r w k) as [Hk|(_ & _ & H200)]; done.
Qed.

Lemma failures_are_not_cached_witness :
  cache (serve unknown_request bitcoin_cached).2 = cache bitcoin_cached.
Proof.
  apply (failures_are_not_cached unknown_request bitcoin_cached).
  vm_compute. discriminate.
Defined.

(** X9. Serving a request never removes a cache entry, so the number of
    entries never goes down, and it changes no entry other than those of the
    identifiers the request names. *)
Theorem cache_only_grows (r : Request) (w : World) :
  dom (cache w) ⊆ dom (cache (serve r w).2)
  ∧ (size (cache w) <= size (cache (serve r w).2))%nat
  ∧ ∀ k, k ∉ requested_ids r -> cache (serve r w).2 !! k = cache w !! k.
Proof.
  assert (Hdom : dom (cache w) ⊆ dom (cache (serve r w).2)).
  { intros k Hk. apply elem_of_dom in Hk. apply elem_of_dom.
    destruct (serve_cache r w k) as [->|(_ & Hs & _)]; done. }
  split; [exact Hdom |]. split.
  - rewrite <- !size_dom. by apply subseteq_size.
  - intros k Hk. destruct (serve_cache r w k) as [Heq|(Hin & _)]; done.
Qed.

Lemma cache_only_grows_witness :
  cache (serve mixed_request bitcoin_cached).2 !! "ethereum"
    = cache bitcoin_cached !! "ethereum".
Proof.
  apply (proj2 (proj2 (cache_only_grows mixed_request bitcoin_cached))).
  intros Hin. apply list_elem_of_In in Hin. vm_compute in Hin.
  destruct Hin as [?|[?|[?|[]]]]; discriminate.
Defined.

(** X10. Neither handler lets an exception escape, so the error middleware
    is never reached from these routes; and [GET /prices/:ids] only ever
    answers 200 with a mapping, the limiter's 429, or 500: unlike the single
    endpoint it never answers 404 or 408, whatever the provider's error. *)
Theorem handlers_always_answer (r : Request) (w0 : World) :
  (∃ resp w', handler r w0 = (Ret resp, w'))
  ∧ ∀ ids, target r = Prices ids ->
      (handler r w0).1 = Ret local_rate_limit_response
      ∨ (handler r w0).1 = Ret internal_error_response
      ∨ ∃ m, (handler r w0).1 = Ret {| status := 200; body := MapBody m |}.
Proof.
  split.
  - destruct (handler_rate r w0) as [[_ Hh]|(w1 & resp & w' & _ & Hh & _)];
      rewrite Hh; eauto.
  - intros ids Hids. unfold handler. rewrite Hids.
    destruct (checkRateLimit_cases (client r) w0) as [[_ Hadm]|[_ Hrej]].
    2:{ left. by rewrite prices_handler_run, Hrej. }
    pose proof (prices_handler_admitted (provider r) (client r) ids _ _ Hadm) as Hrun.
    cbv zeta in Hrun.
    destruct (misses w0 (coinIds ids)) as [|m0 ms].
    { right. right. rewrite Hrun. by eexists. }
    destruct Hrun as (w' & _ & _ & Hrun).
    destruct (fetched (provider r) (m0 :: ms)); destruct Hrun as (-> & _).
    + right. right. by eexists.
    + right. by left.
Qed.

Lemma handlers_always_answer_witness :
  (handler mixed_request bitcoin_cached).1 = Ret local_rate_limit_response
  ∨ (handler mixed_request bitcoin_cached).1 = Ret internal_error_response
  ∨ ∃ m, (handler mixed_request bitcoin_cached).1
         = Ret {| status := 200; body := MapBody m |}.
Proof.
  apply (proj2 (handlers_always_answer mixed_request bitcoin_cached)
           "bitcoin, cardano ,unknown-coin-xyz").
  reflexivity.
Defined.

(** X11. When the bulk price call answers with a payload other than [null],
    the answer of an admitted [GET /prices/:ids] has an entry exactly for the
    named identifiers, other than [__proto__], that are fresh in the cache
    (the cached record) or, failing that, under which the lookup in the
    payload finds a truthy value, be it an own property or a member every
    object inherits such as [constructor] (the fetched record, priced with the
    [usd] of that value); every other identifier, named or not, has none. *)
Theorem bulk_response_entries (up : Upstream) (ip ids : string) (w w1 : World)
    (own : gmap string JsValue) (chain : string -> option JsValue) :
  checkRateLimit ip w = (Ret true, w1) ->
  outcome (simple_price up (join "," (misses w (coinIds ids)))) = inr (Data own chain) ->
  ∃ m, (prices_handler up ip ids w).1 = Ret {| status := 200; body := MapBody m |}
       ∧ ∀ id, m !! id =
           if decide (id ∈ coinIds ids ∧ id ≠ "__proto__") then
             match cached_fresh w id with
             | Some d => Some d
             | None =>
                 if is_truthy (member (Data own chain) id)
                 then Some (bulk_record up id (member (Data own chain) id))
                 else None
             end
           else None.
Proof.
  intros Hadm Hp.
  pose proof (prices_handler_admitted up ip ids w w1 Hadm) as Hrun. cbv zeta in Hrun.
  destruct (misses w (coinIds ids)) as [|m0 ms] eqn:Hmiss.
  - rewrite Hrun. eexists. split; [reflexivity |]. intros id.
    rewrite (left_id_L ∅ (∪)), hits_lookup, lookup_empty.
    destruct (decide (id ∈ coinIds ids ∧ id ≠ "__proto__")) as [[Hin _]|]; [| done].
    destruct (cached_fresh w id) eqn:Hf; [done |].
    assert (id ∈ misses w (coinIds ids)) as Hm by (by apply misses_elem).
    rewrite Hmiss in Hm. by apply not_elem_of_nil in Hm.
  - destruct Hrun as (w' & _ & _ & Hrun). unfold fetched in Hrun. rewrite Hp in Hrun.
    destruct Hrun as (-> & _).
    eexists. split; [reflexivity |]. intros id.
    rewrite lookup_union, combined_lookup, hits_lookup, lookup_empty, <- Hmiss.
    destruct (decide (id ∈ coinIds ids ∧ id ≠ "__proto__")) as [[Hin Hproto]|Hnin].
    + destruct (cached_fresh w id) as [d|] eqn:Hf.
      * rewrite decide_False by (rewrite misses_elem; intros [[_ ?] _]; congruence).
        done.
      * rewrite decide_True by (split; [by apply misses_elem | done]).
        by destruct (is_truthy _).
    + rewrite decide_False by (rewrite misses_elem; tauto). done.
Qed.

Lemma bulk_response_entries_witness :
  ∃ m, (prices_handler provider_info_down "10.0.0.7"
          "bitcoin, cardano ,unknown-coin-xyz" bitcoin_cached).1
         = Ret {| status := 200; body := MapBody m |}
       ∧ m !! "unknown-coin-xyz" = None
       ∧ m !! "bitcoin" = Some {| name := "Bitcoin"; symbol := "BTC";
                                  price := Some (90001 # 2) |}.
Proof.
  destruct (bulk_response_entries provider_info_down "10.0.0.7"
              "bitcoin, cardano ,unknown-coin-xyz" bitcoin_cached
              (checkRateLimit "10.0.0.7" bitcoin_cached).2
              {[ "bitcoin" := JsEntry {| usd := Some (90001 # 2) |};
                 "cardano" := JsEntry {| usd := Some (9 # 20) |} ]}
              (chain_of Object_prototype_names))
    as (m & Hm & Hentries); [vm_compute; reflexivity | reflexivity |].
  exists m. split; [exact Hm |]. split; rewrite Hentries; vm_compute; reflexivity.
Defined.

(** X12. In an admitted bulk request, an identifier other than [__proto__]
    that is missing from the cache and has an entry of its own in the
    provider's price response is answered even when its info call fails or
    its info payload has no symbol: the record then carries the identifier as
    name and the upper-cased identifier as symbol, with the provider's
    price. *)
Theorem bulk_request_falls_back (up : Upstream) (ip ids id : string) (w w1 : World)
    (own : gmap string JsValue) (chain : string -> option JsValue) (entry : PriceEntry) :
  checkRateLimit ip w = (Ret true, w1) ->
  id ∈ coinIds ids ->
  id ≠ "__proto__" ->
  (getCachedData id w).1 = Ret None ->
  outcome (simple_price up (join "," (misses w (coinIds ids)))) = inr (Data own chain) ->
  own !! id = Some (JsEntry entry) ->
  (match outcome (coins up id) with
   | inl _ => True
   | inr i => info_symbol i = None
   end) ->
  ∃ m, (prices_handler up ip ids w).1 = Ret {| status := 200; body := MapBody m |}
       ∧ m !! id = Some {| name := id; symbol := toUpperCase id; price := usd entry |}.
Proof.
  intros Hadm Hin Hproto Hmiss Hp Hentry Hinfo.
  rewrite getCachedData_run in Hmiss. cbn in Hmiss. injection Hmiss as Hmiss.
  pose proof (prices_handler_admitted up ip ids w w1 Hadm) as Hrun. cbv zeta in Hrun.
  assert (Hm : id ∈ misses w (coinIds ids)) by (by apply misses_elem).
  destruct (misses w (coinIds ids)) as [|m0 ms] eqn:Hms;
    [by apply not_elem_of_nil in Hm |].
  destruct Hrun as (w' & _ & _ & Hrun). unfold fetched in Hrun. rewrite Hp in Hrun.
  destruct Hrun as (-> & _).
  eexists. split; [reflexivity |].
  apply lookup_union_Some_raw. left.
  rewrite combined_lookup, decide_True by done. cbn [member]. rewrite Hentry.
  cbn [is_truthy]. unfold bulk_record, info_result. cbn [usd_of].
  destruct (outcome (coins up id)) as [e|i]; [done |]. by rewrite Hinfo.
Qed.

Lemma bulk_request_falls_back_witness :
  ∃ m, (prices_handler provider_info_down "10.0.0.7"
          "bitcoin, cardano ,unknown-coin-xyz" bitcoin_cached).1
         = Ret {| status := 200; body := MapBody m |}
       ∧ m !! "cardano" = Some {| name := "cardano"; symbol := toUpperCase "cardano";
                                  price := usd {| usd := Some (9 # 20) |} |}.
Proof.
  apply (bulk_request_falls_back provider_info_down "10.0.0.7"
           "bitcoin, cardano ,unknown-coin-xyz" "cardano" bitcoin_cached
           (checkRateLimit "10.0.0.7" bitcoin_cached).2
           {[ "bitcoin" := JsEntry {| usd := Some (90001 # 2) |};
              "cardano" := JsEntry {| usd := Some (9 # 20) |} ]}
           (chain_of Object_prototype_names)).
  - vm_compute. reflexivity.
  - apply list_elem_of_In. vm_compute. tauto.
  - discriminate.
  - vm_compute. reflexivity.
  - reflexivity.
  - vm_compute. reflexivity.
  - exact I.
Defined.

Lemma upper_ascii_not_lower c :
  ((97 <=? nat_of_ascii (upper_ascii c))%nat
   && (nat_of_ascii (upper_ascii c) <=? 122)%nat) = false.
Proof. destruct c as [[] [] [] [] [] [] [] []]; vm_compute; reflexivity. Qed.

Lemma toUpperCase_no_lowercase s : has_lowercase (toUpperCase s) = false.
Proof.
  induction s as [|c s IH]; [done |].
  cbn [toUpperCase has_lowercase]. by rewrite upper_ascii_not_lower, IH.
Qed.

(** X13. The symbol of every record produced by either fetch has no
    lower-case ASCII letter, whether it comes from the provider's info payload
    or, in the bulk fetch, from the fall-back built from the identifier. *)
Theorem symbols_are_upper_case (up : Upstream) (w : World) :
  (∀ id d w', getCryptocurrencyData up id w = (Ret d, w') ->
     has_lowercase (symbol d) = false)
  ∧ (∀ ids m w' id d, getMultipleCryptocurrencyData up ids w = (Ret m, w') ->
       m !! id = Some d -> has_lowercase (symbol d) = false).
Proof.
  split.
  - intros id d w' Hrun. rewrite getCryptocurrencyData_run in Hrun. cbv zeta in Hrun.
    destruct (outcome (simple_price up id)) as [e|[|own chain]]; [discriminate.. |].
    destruct (is_truthy _); [| discriminate].
    destruct (outcome (coins up id)) as [e|i]; [discriminate |].
    destruct (info_symbol i) as [s|]; [| discriminate].
    injection Hrun as <- _. apply toUpperCase_no_lowercase.
  - intros ids m w' id d Hrun Hd.
    destruct (getMultipleCryptocurrencyData_run up ids w)
      as (o & w2 & Hget & Ho & _).
    rewrite Hget in Hrun. injection Hrun as -> _. unfold fetched in Ho.
    destruct (outcome (simple_price up (join "," ids))) as [e|[|own chain]];
      [by destruct Ho | |].
    { destruct ids; [injection Ho as ->; by rewrite lookup_empty in Hd | by destruct Ho]. }
    injection Ho as ->. rewrite combined_lookup in Hd.
    destruct (decide _) as [Hin|]; [| done].
    destruct (is_truthy _); [| done].
    injection Hd as <-. unfold bulk_record, info_result. cbn [symbol].
    destruct (outcome (coins up id)) as [e|i]; [apply toUpperCase_no_lowercase |].
    destruct (info_symbol i); apply toUpperCase_no_lowercase.
Qed.

Lemma symbols_are_upper_case_witness :
  has_lowercase
    (symbol {| name := "bitcoin"; symbol := "BITCOIN"; price := Some (90001 # 2) |}) = false.
Proof.
  apply (proj1 (symbols_are_upper_case provider_ok (initial_world 1000)) "bitcoin" _
           (getCryptocurrencyData provider_ok "bitcoin" (initial_world 1000)).2).
  vm_compute. reflexivity.
Defined.

Lemma split_nonempty sep s : split sep s ≠ [].
Proof.
  destruct s as [|c s]; cbn [split]; [done |].
  destruct (Ascii.eqb c sep); [done |]. by destruct (split sep s).
Qed.

Lemma split_length sep s : length (split sep s) = S (occurrences sep s).
Proof.
  induction s as [|c s IH]; [done |]. cbn [split occurrences].
  destruct (Ascii.eqb c sep); cbn [length]; [by rewrite IH |].
  pose proof (split_nonempty sep s) as Hne.
  destruct (split sep s) as [|x xs]; [done |]. cbn [length] in *. lia.
Qed.

Lemma split_no_sep sep s : Forall (λ x, contains sep x = false) (split sep s).
Proof.
  induction s as [|c s IH]; cbn [split]; [by repeat constructor |].
  destruct (Ascii.eqb c sep) eqn:Hc; [by constructor |].
  destruct (split sep s) as [|x xs]; [constructor; [| constructor]; cbn; by rewrite Hc |].
  apply Forall_cons in IH as [Hx Hxs]. constructor; [| done].
  cbn [contains]. by rewrite Hc, Hx.
Qed.

Lemma trimStart_contains c s : contains c s = false -> contains c (trimStart s) = false.
Proof.
  induction s as [|a s IH]; [done |]. cbn [trimStart]. intros Hs.
  destruct (is_space a); [| done].
  apply IH. cbn [contains] in Hs. by apply orb_false_iff in Hs as [_ ?].
Qed.

Lemma trimEnd_contains c s : contains c s = false -> contains c (trimEnd s) = false.
Proof.
  induction s as [|a s IH]; [done |]. cbn [trimEnd contains]. intros Hs.
  apply orb_false_iff in Hs as [Ha Hs]. specialize (IH Hs).
  destruct (trimEnd s) as [|b t].
  - destruct (is_space a); [done |]. cbn [contains]. by rewrite Ha.
  - cbn [contains] in *. by rewrite Ha, IH.
Qed.

Lemma trimEnd_idempotent s : trimEnd (trimEnd s) = trimEnd s.
Proof.
  induction s as [|a s IH]; [done |]. cbn [trimEnd].
  destruct (trimEnd s) as [|b t] eqn:Ht.
  - destruct (is_space a) eqn:Ha; [done |]. cbn [trimEnd]. by rewrite Ha.
  - cbn [trimEnd]. cbn [trimEnd] in IH. by rewrite IH.
Qed.

Lemma trimStart_clean s :
  match trimStart s with
  | EmptyString => True
  | String c _ => is_space c = false
  end.
Proof.
  induction s as [|a s IH]; [done |]. cbn [trimStart].
  by destruct (is_space a) eqn:Ha.
Qed.

Lemma trim_idempotent s : trim (trim s) = trim s.
Proof.
  unfold trim. pose proof (trimStart_clean s) as Hclean.
  destruct (trimStart s) as [|c t]; [done |].
  assert (Hstart : trimStart (trimEnd (String c t)) = trimEnd (String c t)).
  { cbn [trimEnd]. destruct (trimEnd t); rewrite ?Hclean; cbn [trimStart];
      by rewrite Hclean. }
  by rewrite Hstart, trimEnd_idempotent.
Qed.

Lemma split_append sep x rest :
  contains sep x = false ->
  split sep (String.append x (String sep rest)) = x :: split sep rest.
Proof.
  induction x as [|c x IH]; intros Hx.
  - change (split sep (String sep rest) = EmptyString :: split sep rest).
    cbn [split]. by rewrite Ascii.eqb_refl.
  - cbn [contains] in Hx. apply orb_false_iff in Hx as [Hc Hx].
    change (split sep (String c (String.append x (String sep rest)))
            = String c x :: split sep rest).
    cbn [split]. by rewrite Hc, (IH Hx).
Qed.

Lemma split_whole sep x : contains sep x = false -> split sep x = [x].
Proof.
  induction x as [|c x IH]; intros Hx; [done |].
  cbn [contains] in Hx. apply orb_false_iff in Hx as [Hc Hx].
  cbn [split]. by rewrite Hc, (IH Hx).
Qed.

Lemma split_join (l : list string) :
  l ≠ [] -> Forall (λ x, contains "," x = false) l -> split "," (join "," l) = l.
Proof.
  induction l as [|x l IH]; intros Hne Hall; [done |].
  apply Forall_cons in Hall as [Hx Hl].
  destruct l as [|y l].
  - cbn [join]. by apply split_whole.
  - change (join "," (x :: y :: l))
      with (String.append x (String "," (join "," (y :: l)))).
    rewrite split_append by done. by rewrite IH.
Qed.

Lemma coinIds_no_comma ids : Forall (λ id, contains "," id = false) (coinIds ids).
Proof.
  unfold coinIds. apply Forall_fmap. eapply Forall_impl; [apply split_no_sep |].
  intros x Hx. cbn. unfold trim. by apply trimEnd_contains, trimStart_contains.
Qed.

(** X14. The identifier list parsed from the [:ids] path segment is never
    empty and has one identifier more than the segment has commas; no
    identifier contains a comma, and each is trimmed (trimming it again
    changes nothing). *)
Theorem coinIds_shape (ids : string) :
  coinIds ids ≠ []
  ∧ length (coinIds ids) = S (occurrences "," ids)
  ∧ Forall (λ id, contains "," id = false ∧ trim id = id) (coinIds ids).
Proof.
  split; [| split].
  - unfold coinIds. pose proof (split_nonempty "," ids) as Hne.
    by destruct (split "," ids).
  - unfold coinIds. by rewrite length_map, split_length.
  - apply Forall_and. split; [apply coinIds_no_comma |].
    unfold coinIds. apply Forall_fmap, Forall_forall. intros x _. cbn.
    apply trim_idempotent.
Qed.

(** X15. The [ids] parameter of the bulk price call encodes the missing
    identifiers exactly: splitting it at the commas gives back the list of
    missing identifiers, in order and with duplicates kept. *)
Theorem bulk_ids_parameter_round_trip (w : World) (ids : string) :
  misses w (coinIds ids) ≠ [] ->
  split "," (join "," (misses w (coinIds ids))) = misses w (coinIds ids).
Proof.
  intros Hne. apply split_join; [done |].
  apply Forall_forall. intros id Hid. apply misses_elem in Hid as [Hin _].
  pose proof (coinIds_no_comma ids) as Hall. rewrite Forall_forall in Hall.
  by apply Hall.
Qed.

Lemma bulk_ids_parameter_round_trip_witness :
  split "," (join "," (misses bitcoin_cached (coinIds "bitcoin, cardano ,unknown-coin-xyz")))
  = misses bitcoin_cached (coinIds "bitcoin, cardano ,unknown-coin-xyz").
Proof.
  apply (bulk_ids_parameter_round_trip bitcoin_cached "bitcoin, cardano ,unknown-coin-xyz").
  vm_compute. discriminate.
Defined.

(** ** The successful paths *)

(** X17. An admitted [GET /price/:id] that misses the cache and finds an
    entry of the identifier's own in the provider's price response answers
    200 with the provider's name, the upper-cased symbol and the provider's
    price, and caches that record stamped with the instant the fetch
    completed: the arrival time plus the latency of the price call, the pause
    of 200 ms and the latency of the info call. *)
Theorem single_miss_success (up : Upstream) (ip id : string) (w w1 : World)
    (own : gmap string JsValue) (chain : string -> option JsValue)
    (entry : PriceEntry) (i : CoinInfo) (s : string) :
  checkRateLimit ip w = (Ret true, w1) ->
  (getCachedData id w).1 = Ret None ->
  outcome (simple_price up id) = inr (Data own chain) ->
  own !! id = Some (JsEntry entry) ->
  outcome (coins up id) = inr i ->
  info_symbol i = Some s ->
  let d := {| name := info_name i; symbol := toUpperCase s; price := usd entry |} in
  let done_at := clock w + elapsed (simple_price up id) + 200 + elapsed (coins up id) in
  (price_handler up ip id w).1 = Ret {| status := 200; body := RecordBody d |}
  ∧ cache (price_handler up ip id w).2 !! id = Some {| data := d; timestamp := done_at |}
  ∧ clock (price_handler up ip id w).2 = done_at.
Proof.
  intros Hadm Hmiss Hp Hentry Hi Hs. cbv zeta.
  rewrite getCachedData_run in Hmiss. cbn in Hmiss. injection Hmiss as Hmiss.
  destruct (checkRateLimit_frame _ _ _ _ Hadm) as (_ & Hk & _).
  rewrite (price_handler_admitted _ _ _ _ _ Hadm), Hmiss.
  rewrite getCryptocurrencyData_run. cbv zeta. rewrite Hp. cbn [member].
  rewrite Hentry. cbn [is_truthy usd_of]. rewrite Hi, Hs.
  cbn [fst snd set_cache cache clock after_info after_price set_clock add_call].
  rewrite lookup_insert_eq, Hk. done.
Qed.

Lemma single_miss_success_witness :
  (price_handler provider_ok "10.0.0.7" "cardano" bitcoin_cached).1
    = Ret {| status := 200;
             body := RecordBody {| name := "cardano"; symbol := toUpperCase "cardano";
                                   price := Some (9 # 20) |} |}
  ∧ cache (price_handler provider_ok "10.0.0.7" "cardano" bitcoin_cached).2 !! "cardano"
    = Some {| data := {| name := "cardano"; symbol := toUpperCase "cardano";
                         price := Some (9 # 20) |};
              timestamp := 100000 + 120 + 200 + 80 |}
  ∧ clock (price_handler provider_ok "10.0.0.7" "cardano" bitcoin_cached).2
    = 100000 + 120 + 200 + 80.
Proof.
  apply (single_miss_success provider_ok "10.0.0.7" "cardano" bitcoin_cached
           (checkRateLimit "10.0.0.7" bitcoin_cached).2
           {[ "bitcoin" := JsEntry {| usd := Some (90001 # 2) |};
              "cardano" := JsEntry {| usd := Some (9 # 20) |} ]}
           (chain_of Object_prototype_names)
           {| usd := Some (9 # 20) |}
           {| info_name := "cardano"; info_symbol := Some "cardano" |} "cardano").
  - vm_compute. reflexivity.
  - vm_compute. reflexivity.
  - reflexivity.
  - vm_compute. reflexivity.
  - reflexivity.
  - reflexivity.
Defined.

(** X18. The outbound calls of an admitted [GET /prices/:ids], exactly: none
    when every identifier is fresh in the cache; otherwise the one price call
    and then, if that call succeeds, one info call for every missing
    identifier in order, including those the price response turns out to
    lack; if the price call fails, no info call at all. *)
Theorem bulk_request_calls (up : Upstream) (ip ids : string) (w w1 : World) :
  checkRateLimit ip w = (Ret true, w1) ->
  let missing := misses w (coinIds ids) in
  calls (prices_handler up ip ids w).2 =
    (calls w ++
       match missing with
       | [] => []
       | _ :: _ =>
           SimplePrice (join "," missing) ::
             match outcome (simple_price up (join "," missing)) with
             | inl _ => []
             | inr _ => map CoinInfoCall missing
             end
       end)%list.
Proof.
  intros Hadm. cbv zeta.
  pose proof (prices_handler_admitted up ip ids w w1 Hadm) as Hrun. cbv zeta in Hrun.
  destruct (checkRateLimit_frame _ _ _ _ Hadm) as (_ & _ & Hcalls).
  destruct (misses w (coinIds ids)) as [|m0 ms].
  { rewrite Hrun. cbn [snd]. by rewrite app_nil_r. }
  destruct Hrun as (w' & _ & Hc & Hrun).
  destruct (fetched up (m0 :: ms)); destruct Hrun as (-> & _); exact Hc.
Qed.

Lemma bulk_request_calls_witness :
  calls (prices_handler provider_unknown "10.0.0.7" "bitcoin, cardano ,unknown-coin-xyz"
           bitcoin_cached).2
  = [SimplePrice "cardano,unknown-coin-xyz"; CoinInfoCall "cardano";
     CoinInfoCall "unknown-coin-xyz"].
Proof.
  rewrite (bulk_request_calls provider_unknown "10.0.0.7"
             "bitcoin, cardano ,unknown-coin-xyz" bitcoin_cached
             (checkRateLimit "10.0.0.7" bitcoin_cached).2);
    [| vm_compute; reflexivity].
  vm_compute. reflexivity.
Defined.

(** X21. No answer of [GET /prices/:ids] has an entry under [__proto__],
    whether a record is cached under that key or the provider's price
    response has an entry of that name: in both [cachedResults] and the
    [result] of the bulk fetch the assignment under [__proto__] adds no
    property. *)
Theorem proto_never_answered (up : Upstream) (ip ids : string) (w : World)
    (m : gmap string PriceRecord) :
  (prices_handler up ip ids w).1 = Ret {| status := 200; body := MapBody m |} ->
  m !! "__proto__" = None.
Proof.
  intros Hrun.
  assert (Hhits : hits w ∅ (coinIds ids) !! "__proto__" = None).
  { rewrite hits_lookup, lookup_empty. rewrite decide_False; [done | tauto]. }
  destruct (checkRateLimit_cases ip w) as [[_ Hadm]|[_ Hrej]].
  2:{ rewrite prices_handler_run, Hrej in Hrun. discriminate. }
  pose proof (prices_handler_admitted up ip ids w _ Hadm) as Hcase. cbv zeta in Hcase.
  destruct (misses w (coinIds ids)) as [|m0 ms].
  - rewrite Hcase in Hrun. injection Hrun as <-.
    by rewrite (left_id_L ∅ (∪)).
  - destruct Hcase as (w' & _ & _ & Hcase).
    destruct (fetched up (m0 :: ms)) as [fresh|] eqn:Hfetch.
    + destruct Hcase as (Heq & _). rewrite Heq in Hrun. injection Hrun as <-.
      apply lookup_union_None. split; [| exact Hhits].
      destruct (fresh !! "__proto__") as [d|] eqn:Hd; [| done].
      destruct (fetched_keys _ _ _ "__proto__" Hfetch) as [_ Hne]; [by rewrite Hd | done].
    + destruct Hcase as (Heq & _). rewrite Heq in Hrun. discriminate.
Qed.

Lemma proto_never_answered_witness :
  ∃ m, (prices_handler provider_proto "10.0.0.7" "bitcoin,__proto__"
          (initial_world 1000)).1 = Ret {| status := 200; body := MapBody m |}
       ∧ m !! "__proto__" = None
       ∧ is_Some (m !! "bitcoin").
Proof.
  assert (Hrun : ∃ m, (prices_handler provider_proto "10.0.0.7" "bitcoin,__proto__"
                         (initial_world 1000)).1
                      = Ret {| status := 200; body := MapBody m |}
                      ∧ is_Some (m !! "bitcoin")).
  { eexists. split; [vm_compute; reflexivity |]. vm_compute. eauto. }
  destruct Hrun as (m & Hm & Hb). exists m. split; [exact Hm |]. split; [| exact Hb].
  exact (proto_never_answered provider_proto "10.0.0.7" "bitcoin,__proto__"
           (initial_world 1000) m Hm).
Defined.
